(** * ChatAI: the streaming decoder of [services/api.ts] and the
      conversation store of [App.tsx]

    The development embeds two parts of the program.

    - [streamChat] (src/services/api.ts): the credential check, the
      failure paths before the body is read, and the read loop that
      decodes byte chunks, reassembles lines, recognises [data: ] frames
      and the [data: [DONE]] sentinel and calls [onChunk].
    - [handleSendMessage] and [getSessionsForStorage] (src/App.tsx): the
      updates of the [sessions] state made by one exchange (optimistic
      user message and title, assistant placeholder, throttled merges,
      final merge, error message) and the filter applied before the
      sessions are written to local storage.  The updaters passed to
      [setSessions] are kept in a queue that React processes in order;
      the merge updater reads the accumulated text when it is invoked.

    JavaScript strings are sequences of UTF-16 code units and are modelled
    as lists of [N]; byte chunks ([Uint8Array]) are lists of [Byte.byte].
    The host's [JSON.parse] and [ToString] are parameters of the sections
    that need them; [ToString] returns a string or throws a TypeError,
    as it does for an object whose own [toString] is not a function.
    Both have a reference implementation below ([JSON.parse],
    [ToString_reference]), used to evaluate the program on concrete
    inputs. *)

From Stdlib Require Import Strings.String Strings.Byte.
From Stdlib Require Import List Bool Arith NArith ZArith QArith Qabs Lia.
Import ListNotations.

Local Close Scope Q_scope.
Set Warnings "-register-all".
Local Open Scope N_scope.

(** ** JavaScript strings *)

Definition jsstring : Type := list N.

(** An ASCII literal as a JavaScript string. *)
Definition js (s : string) : jsstring := map Byte.to_N (list_byte_of_string s).

(** A byte chunk holding the ASCII text [s]. *)
Definition bytes (s : string) : list byte := list_byte_of_string s.

(** Literals for JSON text: an apostrophe in [s] stands for a quotation
    mark. *)
Definition jsq (s : string) : jsstring :=
  map (fun c => if c =? 39 then 34 else c) (js s).

Definition bytesq (s : string) : list byte :=
  map (fun b => if Byte.to_N b =? 39 then x22 else b) (list_byte_of_string s).

(** [a === b] on strings. *)
Fixpoint str_eqb (a b : jsstring) : bool :=
  match a, b with
  | [], [] => true
  | x :: a', y :: b' => (x =? y) && str_eqb a' b'
  | _, _ => false
  end.

(** ECMAScript WhiteSpace and LineTerminator code units, the ones
    [String.prototype.trim] removes. *)
Definition is_white_space (c : N) : bool :=
  ((9 <=? c) && (c <=? 13)) || (c =? 32) || (c =? 160) || (c =? 5760)
  || ((8192 <=? c) && (c <=? 8202)) || (c =? 8232) || (c =? 8233)
  || (c =? 8239) || (c =? 8287) || (c =? 12288) || (c =? 65279).

Fixpoint trimStart (s : jsstring) : jsstring :=
  match s with
  | c :: s' => if is_white_space c then trimStart s' else s
  | [] => []
  end.

Definition trimEnd (s : jsstring) : jsstring := rev (trimStart (rev s)).

(** [s.trim()] *)
Definition trim (s : jsstring) : jsstring := trimStart (trimEnd s).

(** [s.startsWith(p)] *)
Fixpoint startsWith (p s : jsstring) : bool :=
  match p, s with
  | [], _ => true
  | x :: p', y :: s' => (x =? y) && startsWith p' s'
  | _ :: _, [] => false
  end.

(** [s.slice(n)] and [s.slice(0, n)] for a non-negative literal [n]. *)
Definition slice_from (n : nat) (s : jsstring) : jsstring := skipn n s.
Definition slice_to (n : nat) (s : jsstring) : jsstring := firstn n s.

Definition LF : N := 10.

(** [s.split("\n")]: never empty; the last piece is the text after the
    last line feed. *)
Fixpoint split_nl (s : jsstring) : list jsstring :=
  match s with
  | [] => [[]]
  | c :: s' =>
      if c =? LF then [] :: split_nl s'
      else match split_nl s' with
           | l :: ls => (c :: l) :: ls
           | [] => [[c]]
           end
  end.

(** ** [TextDecoder("utf-8")] with [{stream: true}]

    The UTF-8 decoder of the Encoding Standard, one byte at a time, in
    replacement error mode, followed by the BOM handling and the
    conversion of scalar values to UTF-16 code units. *)

Record utf8_state : Type := mk_utf8 {
  u_code_point : N;
  u_bytes_seen : N;
  u_bytes_needed : N;
  u_lower : N;
  u_upper : N
}.

Definition utf8_init : utf8_state := mk_utf8 0 0 0 128 191.

Definition REPLACEMENT : N := 65533.

(** The handler when no bytes are needed: a lead byte. *)
Definition utf8_lead (b : N) : utf8_state * list N :=
  if b <=? 127 then (utf8_init, [b])
  else if (194 <=? b) && (b <=? 223) then
    (mk_utf8 (N.land b 31) 0 1 128 191, [])
  else if (224 <=? b) && (b <=? 239) then
    (mk_utf8 (N.land b 15) 0 2
       (if b =? 224 then 160 else 128) (if b =? 237 then 159 else 191), [])
  else if (240 <=? b) && (b <=? 244) then
    (mk_utf8 (N.land b 7) 0 3
       (if b =? 240 then 144 else 128) (if b =? 244 then 143 else 191), [])
  else (utf8_init, [REPLACEMENT]).

(** The handler: the scalar values produced by one byte.  A byte outside
    the expected range ends the pending sequence with U+FFFD and is then
    handled again as a lead byte. *)
Definition utf8_handler (st : utf8_state) (b : N) : utf8_state * list N :=
  if u_bytes_needed st =? 0 then utf8_lead b
  else if negb ((u_lower st <=? b) && (b <=? u_upper st)) then
    let '(st', out) := utf8_lead b in (st', REPLACEMENT :: out)
  else
    let cp := N.lor (N.shiftl (u_code_point st) 6) (N.land b 63) in
    let seen := u_bytes_seen st + 1 in
    if seen =? u_bytes_needed st then (utf8_init, [cp])
    else (mk_utf8 cp seen (u_bytes_needed st) 128 191, []).

Definition utf16 (cp : N) : jsstring :=
  if cp <? 65536 then [cp]
  else let c := cp - 65536 in [55296 + N.shiftr c 10; 56320 + N.land c 1023].

Definition BOM : N := 65279.

(** Serialising the scalar values: the first one of the stream sets the
    [BOM seen] flag and is dropped when it is the byte order mark. *)
Fixpoint serialize (bom_seen : bool) (items : list N) : bool * jsstring :=
  match items with
  | [] => (bom_seen, [])
  | cp :: rest =>
      let '(seen', out) := serialize true rest in
      (seen', (if negb bom_seen && (cp =? BOM) then [] else utf16 cp) ++ out)
  end.

Record TextDecoder : Type := mk_decoder {
  d_utf8 : utf8_state;
  d_bom_seen : bool
}.

(** [new TextDecoder("utf-8")] *)
Definition new_TextDecoder : TextDecoder := mk_decoder utf8_init false.

Definition decode_byte (d : TextDecoder) (b : byte) : TextDecoder * jsstring :=
  let '(st, items) := utf8_handler (d_utf8 d) (Byte.to_N b) in
  let '(seen, out) := serialize (d_bom_seen d) items in
  (mk_decoder st seen, out).

(** [decoder.decode(value, { stream: true })]: the decoder keeps its
    state for the next call and nothing is flushed. *)
Fixpoint decode (d : TextDecoder) (value : list byte) : TextDecoder * jsstring :=
  match value with
  | [] => (d, [])
  | b :: rest =>
      let '(d1, out1) := decode_byte d b in
      let '(d2, out2) := decode d1 rest in
      (d2, out1 ++ out2)
  end.

(** Invariant of the UTF-8 decoder between bytes: a pending sequence has
    a non-zero code point so far, or a raised lower boundary. *)
Definition utf8_ok (st : utf8_state) : Prop :=
  u_upper st <= 191
  /\ (u_bytes_needed st = 0 \/ u_code_point st <> 0 \/ 144 <= u_lower st).

Definition decoder_ok (d : TextDecoder) : Prop := utf8_ok (d_utf8 d).

(** ** JSON values *)

(** The values [JSON.parse] can return.  A number carries the exact
    value of its literal; the object keeps its members in source order. *)
Inductive json : Type :=
| JNull
| JBool (b : bool)
| JNum (q : Q)
| JStr (s : jsstring)
| JArr (items : list json)
| JObj (members : list (jsstring * json)).

(** The literal denotes the Number +0 or -0 exactly when it rounds to
    zero, that is when its magnitude is at most 2^-1075. *)
Definition number_truthy (q : Q) : bool :=
  negb (Qle_bool (Qabs q) (1 # (2 ^ 1075)%positive)).

(** ToBoolean *)
Definition truthy (v : json) : bool :=
  match v with
  | JNull => false
  | JBool b => b
  | JNum q => number_truthy q
  | JStr s => match s with [] => false | _ => true end
  | JArr _ | JObj _ => true
  end.

(** A later member overrides an earlier one with the same name. *)
Fixpoint lookup_member (k : jsstring) (members : list (jsstring * json))
  : option json :=
  match members with
  | [] => None
  | (k', v) :: rest =>
      match lookup_member k rest with
      | Some v' => Some v'
      | None => if str_eqb k' k then Some v else None
      end
  end.

(** [v.k] for a value [v] that is neither null nor undefined and a name
    [k] that no built-in prototype defines ([choices], [delta],
    [content], [error], [message]); [None] is [undefined]. *)
Definition get_property (v : json) (k : jsstring) : option json :=
  match v with
  | JObj members => lookup_member k members
  | _ => None
  end.

(** [v[0]] for a value [v] that is neither null nor undefined. *)
Definition get_index0 (v : json) : option json :=
  match v with
  | JArr (x :: _) => Some x
  | JStr (c :: _) => Some (JStr [c])
  | JObj members => lookup_member (js "0") members
  | _ => None
  end.

(** [a || b] where [a] may be undefined. *)
Definition js_or (a : option json) (b : json) : json :=
  match a with
  | Some v => if truthy v then v else b
  | None => b
  end.

(** ** Reference implementation of [JSON.parse] *)

Module JSON.

Definition is_ws (c : N) : bool :=
  (c =? 9) || (c =? 10) || (c =? 13) || (c =? 32).

Fixpoint skip_ws (s : jsstring) : jsstring :=
  match s with
  | c :: s' => if is_ws c then skip_ws s' else s
  | [] => []
  end.

Definition is_digit (c : N) : bool := (48 <=? c) && (c <=? 57).

(** The longest prefix of digits, and the rest. *)
Fixpoint digits (s : jsstring) : list N * jsstring :=
  match s with
  | c :: s' =>
      if is_digit c then let '(ds, r) := digits s' in (c - 48 :: ds, r)
      else ([], s)
  | [] => ([], [])
  end.

Definition decimal (ds : list N) : Z :=
  fold_left (fun acc d => (acc * 10 + Z.of_N d)%Z) ds 0%Z.

Definition hex_value (c : N) : option N :=
  if is_digit c then Some (c - 48)
  else if (97 <=? c) && (c <=? 102) then Some (c - 87)
  else if (65 <=? c) && (c <=? 70) then Some (c - 55)
  else None.

Definition hex4 (a b c d : N) : option N :=
  match hex_value a, hex_value b, hex_value c, hex_value d with
  | Some a, Some b, Some c, Some d => Some (((a * 16 + b) * 16 + c) * 16 + d)
  | _, _, _, _ => None
  end.

Definition escape (e : N) : option N :=
  if e =? 34 then Some 34       (* quotation mark *)
  else if e =? 92 then Some 92  (* reverse solidus *)
  else if e =? 47 then Some 47  (* solidus *)
  else if e =? 98 then Some 8   (* backspace *)
  else if e =? 102 then Some 12 (* form feed *)
  else if e =? 110 then Some 10 (* line feed *)
  else if e =? 114 then Some 13 (* carriage return *)
  else if e =? 116 then Some 9  (* tab *)
  else None.

(** The characters of a string literal after its opening quote, up to
    and including the closing quote. *)
Fixpoint parse_chars (s : jsstring) : option (jsstring * jsstring) :=
  match s with
  | [] => None
  | c :: r =>
      if c =? 34 then Some ([], r)
      else if c =? 92 then
        match r with
        | [] => None
        | e :: r1 =>
            if e =? 117 then
              match r1 with
              | a :: b :: c' :: d :: r2 =>
                  match hex4 a b c' d, parse_chars r2 with
                  | Some u, Some (str, rest) => Some (u :: str, rest)
                  | _, _ => None
                  end
              | _ => None
              end
            else
              match escape e, parse_chars r1 with
              | Some u, Some (str, rest) => Some (u :: str, rest)
              | _, _ => None
              end
        end
      else if c <? 32 then None
      else
        match parse_chars r with
        | Some (str, rest) => Some (c :: str, rest)
        | None => None
        end
  end.

(** The value [m * 10^e]. *)
Definition scale (m e : Z) : Q :=
  if (0 <=? e)%Z then inject_Z (m * 10 ^ e)%Z
  else Qmake m (Z.to_pos (10 ^ (- e))%Z).

(** A JSON number: an optional minus sign, an integer part without
    leading zeros, an optional fraction and an optional exponent. *)
Definition parse_number (s : jsstring) : option (Q * jsstring) :=
  let '(negative, s1) :=
    match s with
    | c :: r => if c =? 45 then (true, r) else (false, s)
    | [] => (false, s)
    end in
  let int_part :=
    match s1 with
    | c :: r =>
        if c =? 48 then Some ([0], r)
        else if is_digit c then Some (digits s1)
        else None
    | [] => None
    end in
  match int_part with
  | None => None
  | Some (ints, s2) =>
      let frac_part :=
        match s2 with
        | c :: r =>
            if c =? 46 then
              match digits r with
              | ([], _) => None
              | (fs, r') => Some (fs, r')
              end
            else Some ([], s2)
        | [] => Some ([], s2)
        end in
      match frac_part with
      | None => None
      | Some (fracs, s3) =>
          let exp_part :=
            match s3 with
            | c :: r =>
                if (c =? 101) || (c =? 69) then
                  let '(eneg, r1) :=
                    match r with
                    | g :: r' =>
                        if g =? 45 then (true, r')
                        else if g =? 43 then (false, r')
                        else (false, r)
                    | [] => (false, r)
                    end in
                  match digits r1 with
                  | ([], _) => None
                  | (es, r2) =>
                      Some ((if eneg then - decimal es else decimal es)%Z, r2)
                  end
                else Some (0%Z, s3)
            | [] => Some (0%Z, s3)
            end in
          match exp_part with
          | None => None
          | Some (e, s4) =>
              let m := decimal (ints ++ fracs) in
              let q := scale m (e - Z.of_nat (List.length fracs)) in
              Some (if negative then Qopp q else q, s4)
          end
      end
  end.

Fixpoint parse_value (fuel : nat) (s : jsstring) : option (json * jsstring) :=
  match fuel with
  | O => None
  | S fuel' =>
      match skip_ws s with
      | [] => None
      | c :: r =>
          if c =? 34 then
            match parse_chars r with
            | Some (str, rest) => Some (JStr str, rest)
            | None => None
            end
          else if c =? 91 then
            match skip_ws r with
            | c1 :: r1 =>
                if c1 =? 93 then Some (JArr [], r1)
                else match parse_elements fuel' r with
                     | Some (items, rest) => Some (JArr items, rest)
                     | None => None
                     end
            | [] => None
            end
          else if c =? 123 then
            match skip_ws r with
            | c1 :: r1 =>
                if c1 =? 125 then Some (JObj [], r1)
                else match parse_members fuel' r with
                     | Some (members, rest) => Some (JObj members, rest)
                     | None => None
                     end
            | [] => None
            end
          else if startsWith (js "null") (c :: r) then
            Some (JNull, skipn 4 (c :: r))
          else if startsWith (js "true") (c :: r) then
            Some (JBool true, skipn 4 (c :: r))
          else if startsWith (js "false") (c :: r) then
            Some (JBool false, skipn 5 (c :: r))
          else
            match parse_number (c :: r) with
            | Some (q, rest) => Some (JNum q, rest)
            | None => None
            end
      end
  end

with parse_elements (fuel : nat) (s : jsstring)
  : option (list json * jsstring) :=
  match fuel with
  | O => None
  | S fuel' =>
      match parse_value fuel' s with
      | None => None
      | Some (v, rest) =>
          match skip_ws rest with
          | c :: r =>
              if c =? 93 then Some ([v], r)
              else if c =? 44 then
                match parse_elements fuel' r with
                | Some (vs, rest') => Some (v :: vs, rest')
                | None => None
                end
              else None
          | [] => None
          end
      end
  end

with parse_members (fuel : nat) (s : jsstring)
  : option (list (jsstring * json) * jsstring) :=
  match fuel with
  | O => None
  | S fuel' =>
      match skip_ws s with
      | q :: r0 =>
          if q =? 34 then
            match parse_chars r0 with
            | None => None
            | Some (k, r1) =>
                match skip_ws r1 with
                | colon :: r2 =>
                    if colon =? 58 then
                      match parse_value fuel' r2 with
                      | None => None
                      | Some (v, rest) =>
                          match skip_ws rest with
                          | c :: r =>
                              if c =? 125 then Some ([(k, v)], r)
                              else if c =? 44 then
                                match parse_members fuel' r with
                                | Some (ms, rest') => Some ((k, v) :: ms, rest')
                                | None => None
                                end
                              else None
                          | [] => None
                          end
                      end
                    else None
                | [] => None
                end
            end
          else None
      | [] => None
      end
  end.

(** [JSON.parse(text)]; [None] is a thrown SyntaxError. *)
Definition parse (text : jsstring) : option json :=
  match parse_value (2 * List.length text + 2)%nat text with
  | Some (v, rest) =>
      match skip_ws rest with
      | [] => Some v
      | _ :: _ => None
      end
  | None => None
  end.

End JSON.

(** ** [streamChat] (src/services/api.ts) *)

Record ApiConfig : Type := mk_config {
  apiKey : jsstring;
  model : jsstring
}.

(** How the promise returned by an async function settles; a rejection
    carries the [message] of the thrown error. *)
Inductive settled : Type :=
| Resolved
| Rejected (message : jsstring).

(** How the body stream ends after its chunks: [reader.read()] reports
    [done], or rejects. *)
Inductive ending : Type :=
| Done
| ReadRejects (message : jsstring).

(** What the transport does when [fetch] is called.  When
    [response.ok] is false, [response.text()] resolves with [errorText]
    ([NotOk]) or rejects ([NotOkUnread]). *)
Inductive response : Type :=
| FetchRejects (message : jsstring)
| NotOk (status : N) (statusText errorText : jsstring)
| NotOkUnread (message : jsstring)
| NoBody
| Body (reads : list (list byte)) (e : ending).

(** What the host's [ToString] does with a value: it returns a string,
    or it throws a TypeError, whose [message] the host words. *)
Inductive converted : Type :=
| Converts (text : jsstring)
| TypeError (message : jsstring).

(** The observable behaviour of one call: whether [fetch] was called,
    the arguments of the successive [onChunk] calls, and how the promise
    settles. *)
Record run : Type := mk_run {
  fetched : bool;
  chunks : list json;
  result : settled
}.

(** What the loop body does with one line. *)
Inductive line_kind : Type :=
| Blank
| Sentinel
| Frame (payload : jsstring)
| Other.

Definition classify (line : jsstring) : line_kind :=
  if str_eqb (trim line) (js "") then Blank
  else if str_eqb (trim line) (js "data: [DONE]") then Sentinel
  else if startsWith (js "data: ") line then Frame (slice_from 6 line)
  else Other.

(** [json.choices[0]?.delta?.content]; the outer [None] is a TypeError
    (reading a property of null or undefined), the inner one is
    [undefined]. *)
Definition choices0_delta_content (j : json) : option (option json) :=
  match j with
  | JNull => None
  | _ =>
      match get_property j (js "choices") with
      | None | Some JNull => None
      | Some choices =>
          Some match get_index0 choices with
               | None | Some JNull => None
               | Some choice =>
                   match get_property choice (js "delta") with
                   | None | Some JNull => None
                   | Some delta => get_property delta (js "content")
                   end
               end
      end
  end.

Definition API_KEY_REQUIRED : jsstring :=
  js "API key is required. Please set it in Settings.".

Section StreamChat.

(** The host's [JSON.parse] ([None]: SyntaxError) and [ToString]. *)
Variable JSON_parse : jsstring -> option json.
Variable ToString : json -> converted.

(** The [try] block of the loop body: the argument passed to
    [onChunk], if it is called.  Both exceptions are caught and
    logged. *)
Definition frame_delta (payload : jsstring) : option json :=
  match JSON_parse payload with
  | None => None
  | Some j =>
      match choices0_delta_content j with
      | None => None
      | Some c =>
          let content := js_or c (JStr []) in
          if truthy content then Some content else None
      end
  end.

(** [for (const line of lines)]: the [onChunk] arguments in order, and
    whether the function returned from inside the loop. *)
Fixpoint for_lines (lines : list jsstring) : list json * bool :=
  match lines with
  | [] => ([], false)
  | line :: rest =>
      match classify line with
      | Blank => for_lines rest
      | Sentinel => ([], true)
      | Frame payload =>
          let '(out, returned) := for_lines rest in
          (match frame_delta payload with
           | Some content => content :: out
           | None => out
           end, returned)
      | Other => for_lines rest
      end
  end.

(** How the promise settles when [reader.read()] ends the loop: by
    [break] when it reports [done], by the rethrown error when it
    rejects. *)
Definition settle (e : ending) : settled :=
  match e with
  | Done => Resolved
  | ReadRejects m => Rejected m
  end.

(** [while (true)]: one iteration per [reader.read()]. *)
Fixpoint read_loop (decoder : TextDecoder) (buffer : jsstring)
    (reads : list (list byte)) (e : ending) : list json * settled :=
  match reads with
  | [] => ([], settle e)
  | value :: rest =>
      let '(decoder', chunk) := decode decoder value in
      let buffer := buffer ++ chunk in
      let lines := split_nl buffer in
      let buffer := last lines [] in
      let lines := removelast lines in
      let '(out, returned) := for_lines lines in
      if returned then (out, Resolved)
      else
        let '(out', r) := read_loop decoder' buffer rest e in
        (out ++ out', r)
  end.

(** The text of a template literal substitution, unless its conversion
    throws. *)
Definition template (v : json) : converted :=
  match v with
  | JStr s => Converts s
  | _ => ToString v
  end.

(** The message of the error thrown when [response.ok] is false and
    [response.text()] has resolved: the message of the [Error] made from
    the template literal, or the TypeError that a conversion in the
    literal throws, the substitutions being converted from left to
    right. *)
Definition api_error_message (status : N) (statusText errorText : jsstring)
  : converted :=
  let errorMessage :=
    match JSON_parse errorText with
    | None | Some JNull => JStr statusText
    | Some errorData =>
        let nested :=
          match get_property errorData (js "error") with
          | None | Some JNull => None
          | Some err => get_property err (js "message")
          end in
        js_or nested
          (js_or (get_property errorData (js "message")) (JStr statusText))
    end in
  match ToString (JNum (inject_Z (Z.of_N status))) with
  | TypeError m => TypeError m
  | Converts shown =>
      match template errorMessage with
      | TypeError m => TypeError m
      | Converts text => Converts (js "API Error (" ++ shown ++ js "): " ++ text)
      end
  end.

(** The [message] of the error thrown. *)
Definition thrown_message (c : converted) : jsstring :=
  match c with
  | Converts message => message
  | TypeError message => message
  end.

(** [streamChat(messages, config, onChunk)].  [env_key] is
    [import.meta.env.VITE_OPENROUTER_API_KEY]; the request sent to
    [fetch] does not influence the model, its response [net] is given. *)
Definition streamChat (config : ApiConfig) (env_key : option jsstring)
    (net : response) : run :=
  let key :=
    match apiKey config with
    | [] => env_key
    | k => Some k
    end in
  match key with
  | None | Some [] => mk_run false [] (Rejected API_KEY_REQUIRED)
  | Some _ =>
      match net with
      | FetchRejects m => mk_run true [] (Rejected m)
      | NotOk status statusText errorText =>
          mk_run true []
            (Rejected (thrown_message
                         (api_error_message status statusText errorText)))
      | NotOkUnread m => mk_run true [] (Rejected m)
      | NoBody => mk_run true [] (Rejected (js "No response body"))
      | Body reads e =>
          let '(out, r) := read_loop new_TextDecoder [] reads e in
          mk_run true out r
      end
  end.

(** *** The run read off the whole decoded text

    These functions describe a run by the text the transport delivers
    as a whole; the theorems below relate [read_loop] to them. *)

(** The lines terminated by a line feed. *)
Definition complete_lines (text : jsstring) : list jsstring :=
  removelast (split_nl text).

Definition is_sentinel (line : jsstring) : bool :=
  match classify line with
  | Sentinel => true
  | _ => false
  end.

(** The lines before the first sentinel line. *)
Fixpoint before_sentinel (lines : list jsstring) : list jsstring :=
  match lines with
  | [] => []
  | line :: rest =>
      if is_sentinel line then [] else line :: before_sentinel rest
  end.

(** The delta of one line, if it has one. *)
Definition line_delta (line : jsstring) : list json :=
  match classify line with
  | Frame payload =>
      match frame_delta payload with
      | Some content => [content]
      | None => []
      end
  | _ => []
  end.

Definition run_text (text : jsstring) (e : ending) : list json * settled :=
  let lines := complete_lines text in
  (flat_map line_delta (before_sentinel lines),
   if existsb is_sentinel lines then Resolved else settle e).

(** *** The specification's wording, for comparison *)

(** A valid frame in the words of the specification: after trimming,
    the line is non-empty and begins with the prefix. *)
Definition spec_valid_frame (line : jsstring) : bool :=
  negb (str_eqb (trim line) []) && startsWith (js "data: ") (trim line).

(** The deltas of all well-formed frames of a text, in feed order, in
    the words of the specification. *)
Definition spec_all_deltas (text : jsstring) : list json :=
  flat_map (fun line =>
              if spec_valid_frame line then
                match frame_delta (slice_from 6 (trim line)) with
                | Some content => [content]
                | None => []
                end
              else [])
           (split_nl text).

End StreamChat.

(** The text decoded from all the bytes of a stream. *)
Definition decoded_text (reads : list (list byte)) : jsstring :=
  snd (decode new_TextDecoder (concat reads)).

(** ** Data model (src/types.ts) *)

Inductive AttachmentType : Type := image | file.

Module Attachment.
Record t : Type := mk {
  id : jsstring;
  name : jsstring;
  type : AttachmentType;
  content : jsstring;   (* base64 for images, text content for files *)
  mimeType : option jsstring
}.
End Attachment.

Inductive Role : Type := user | assistant | system.

Module Message.
Record t : Type := mk {
  role : Role;
  content : jsstring;
  attachments : option (list Attachment.t)
}.

(** [{ ...msg, content }] *)
Definition with_content (msg : t) (c : jsstring) : t :=
  mk (role msg) c (attachments msg).

(** [{ ...msg, attachments }] *)
Definition with_attachments (msg : t) (a : option (list Attachment.t)) : t :=
  mk (role msg) (content msg) a.
End Message.

Module ChatSession.
Record t : Type := mk {
  id : jsstring;
  projectId : option jsstring;
  title : jsstring;
  messages : list Message.t;
  timestamp : Z
}.

(** [{ ...s, messages }] *)
Definition with_messages (s : t) (msgs : list Message.t) : t :=
  mk (id s) (projectId s) (title s) msgs (timestamp s).

(** [{ ...s, messages, title }] *)
Definition with_messages_title (s : t) (msgs : list Message.t)
    (ttl : jsstring) : t :=
  mk (id s) (projectId s) ttl msgs (timestamp s).
End ChatSession.

Definition role_eqb (a b : Role) : bool :=
  match a, b with
  | user, user | assistant, assistant | system, system => true
  | _, _ => false
  end.

(** ** The [sessions] state and its updaters (src/App.tsx) *)

(** The value of the [sessions] state. *)
Definition sessions_state : Type := list ChatSession.t.

(** [getSessionsForStorage]: image attachments are removed before the
    sessions are serialised. *)
Definition getSessionsForStorage (sessions : sessions_state) : sessions_state :=
  map (fun session =>
         ChatSession.with_messages session
           (map (fun msg =>
                   Message.with_attachments msg
                     (option_map
                        (filter (fun att =>
                                   match Attachment.type att with
                                   | image => false
                                   | file => true
                                   end))
                        (Message.attachments msg)))
                (ChatSession.messages session)))
      sessions.

Definition NEW_CHAT : jsstring := js "New Chat".

(** [content.slice(0, 30) || "New Chat"] *)
Definition title_of (content : jsstring) : jsstring :=
  match slice_to 30 content with
  | [] => NEW_CHAT
  | t => t
  end.

(** The optimistic update: the user message is appended and, for a
    session that had no message, the title is set. *)
Definition optimistic_update (sessionIdForRequest : jsstring)
    (updatedMessages : list Message.t) (content : jsstring)
    (prev : sessions_state) : sessions_state :=
  map (fun s =>
         if str_eqb (ChatSession.id s) sessionIdForRequest then
           ChatSession.with_messages_title s updatedMessages
             (if Nat.eqb (List.length (ChatSession.messages s)) 0
              then title_of content
              else ChatSession.title s)
         else s)
      prev.

Definition placeholder : Message.t := Message.mk assistant [] None.

(** The empty assistant message is added. *)
Definition add_placeholder (sessionIdForRequest : jsstring)
    (updatedMessages : list Message.t) (prev : sessions_state) : sessions_state :=
  map (fun s =>
         if str_eqb (ChatSession.id s) sessionIdForRequest then
           ChatSession.with_messages s (updatedMessages ++ [placeholder])
         else s)
      prev.

(** [msgs[msgs.length - 1]]; [None] is [undefined]. *)
Fixpoint last_message (msgs : list Message.t) : option Message.t :=
  match msgs with
  | [] => None
  | [m] => Some m
  | _ :: rest => last_message rest
  end.

(** [msgs[msgs.length - 1] = f(msgs[msgs.length - 1])] on a copy. *)
Fixpoint set_last (f : Message.t -> Message.t) (msgs : list Message.t)
  : list Message.t :=
  match msgs with
  | [] => []
  | [m] => [f m]
  | m :: rest => m :: set_last f rest
  end.

(** [prev.map(f)] for a callback that may throw. *)
Fixpoint map_throwing {A B : Type} (f : A -> option B) (l : list A)
  : option (list B) :=
  match l with
  | [] => Some []
  | a :: rest =>
      match f a with
      | None => None
      | Some b =>
          match map_throwing f rest with
          | None => None
          | Some bs => Some (b :: bs)
          end
      end
  end.

(** The updater of the throttled and of the final update: the content of
    the last message of the session is replaced when that message is the
    assistant's.  Reading [role] of the last message of an empty list
    throws a TypeError: [None]. *)
Definition merge_session (sessionIdForRequest aiContent : jsstring)
    (s : ChatSession.t) : option ChatSession.t :=
  if negb (str_eqb (ChatSession.id s) sessionIdForRequest) then Some s
  else
    let msgs := ChatSession.messages s in
    match last_message msgs with
    | None => None
    | Some lastm =>
        if role_eqb (Message.role lastm) assistant then
          Some (ChatSession.with_messages s
                  (set_last (fun m => Message.with_content m aiContent) msgs))
        else Some (ChatSession.with_messages s msgs)
    end.

Definition merge_content (sessionIdForRequest aiContent : jsstring)
    (prev : sessions_state) : option sessions_state :=
  map_throwing (merge_session sessionIdForRequest aiContent) prev.

Definition FALLBACK_ERROR : jsstring :=
  js "Sorry, I encountered an error. Please try again.".

(** The assistant message built in the [catch] block from
    [error.message]. *)
Definition errorMsg_of (message : jsstring) : Message.t :=
  let errorMessage := match message with [] => FALLBACK_ERROR | m => m end in
  Message.mk assistant (js "Error: " ++ errorMessage) None.

(** The updater of the [catch] block: the error message replaces the
    last message when that is an empty assistant message, and is pushed
    otherwise. *)
Definition error_update (sessionIdForRequest : jsstring) (errorMsg : Message.t)
    (prev : sessions_state) : sessions_state :=
  map (fun s =>
         if negb (str_eqb (ChatSession.id s) sessionIdForRequest) then s
         else
           let msgs := ChatSession.messages s in
           match last_message msgs with
           | Some lastm =>
               if role_eqb (Message.role lastm) assistant
                  && str_eqb (Message.content lastm) []
               then ChatSession.with_messages s (set_last (fun _ => errorMsg) msgs)
               else ChatSession.with_messages s (msgs ++ [errorMsg])
           | None => ChatSession.with_messages s (msgs ++ [errorMsg])
           end)
      prev.

(** ** One exchange: [handleSendMessage] *)

(** The variables the callbacks of one call close over. *)
Record exchange : Type := mk_exchange {
  sessionIdForRequest : jsstring;
  updatedMessages : list Message.t;
  aiContent : jsstring;
  lastUpdate : Z
}.

(** The updaters an exchange passes to [setSessions] once the stream
    has started: the one of the throttled and of the final update, and
    the one of the [catch] block. *)
Inductive updater : Type :=
| MergeUpdater
| ErrorUpdater (errorMsg : Message.t).

(** React invokes an updater on the state [prev].  The merge updater
    reads the variable [aiContent] at that moment. *)
Definition invoke (x : exchange) (u : updater) (prev : sessions_state)
  : option sessions_state :=
  match u with
  | MergeUpdater => merge_content (sessionIdForRequest x) (aiContent x) prev
  | ErrorUpdater errorMsg =>
      Some (error_update (sessionIdForRequest x) errorMsg prev)
  end.

(** React processes the queue: the updaters are invoked in the order in
    which they were passed to [setSessions]. *)
Fixpoint render (x : exchange) (queue : list updater) (prev : sessions_state)
  : option sessions_state :=
  match queue with
  | [] => Some prev
  | u :: rest =>
      match invoke x u prev with
      | None => None
      | Some next => render x rest next
      end
  end.

(** What happens while [streamChat] runs: it calls [onChunk] with the
    text that [aiContent += chunk] appends, [now] being the reading of
    [Date.now()] in that call, or React processes the queue. *)
Inductive step : Type :=
| OnChunk (chunk : jsstring) (now : Z)
| Render.

(** The deltas of a run, in order. *)
Fixpoint deltas (steps : list step) : list jsstring :=
  match steps with
  | [] => []
  | OnChunk chunk _ :: rest => chunk :: deltas rest
  | Render :: rest => deltas rest
  end.

Section Throttle.

(** The throttle interval in milliseconds; the program uses [100]. *)
Variable interval : Z.

(** The [onChunk] callback.  The second component tells whether it
    passes the merge updater to [setSessions]. *)
Definition on_chunk (x : exchange) (chunk : jsstring) (now : Z)
  : exchange * bool :=
  let ai := aiContent x ++ chunk in
  if (now - lastUpdate x >? interval)%Z then
    (mk_exchange (sessionIdForRequest x) (updatedMessages x) ai now, true)
  else
    (mk_exchange (sessionIdForRequest x) (updatedMessages x) ai (lastUpdate x),
     false).

(** The steps of one stream: the closure variables, the queue and the
    state after them. *)
Fixpoint deliver (x : exchange) (queue : list updater) (steps : list step)
    (prev : sessions_state)
  : option (exchange * list updater * sessions_state) :=
  match steps with
  | [] => Some (x, queue, prev)
  | OnChunk chunk now :: rest =>
      let '(x', publish) := on_chunk x chunk now in
      deliver x' (if publish then queue ++ [MergeUpdater] else queue) rest prev
  | Render :: rest =>
      match render x queue prev with
      | None => None
      | Some next => deliver x [] rest next
      end
  end.

(** A delta after which React processes the queue at once. *)
Definition deliver_chunk (x : exchange) (chunk : jsstring) (now : Z)
    (prev : sessions_state) : option (exchange * sessions_state) :=
  match deliver x [] [OnChunk chunk now; Render] prev with
  | Some (x', _, next) => Some (x', next)
  | None => None
  end.

End Throttle.

(** The part of [handleSendMessage] before [streamChat] is called.
    [sessions] and [currentSessionId] are the values the handler closes
    over, [prev] is the state the updaters receive.  The two updaters of
    this part read no variable that changes later, so they are applied
    here.  [None]: the handler returns at once. *)
Definition begin_exchange (sessions : sessions_state)
    (currentSessionId : option jsstring) (content : jsstring)
    (attachments : list Attachment.t) (prev : sessions_state)
  : option (exchange * sessions_state) :=
  match currentSessionId with
  | None | Some [] => None
  | Some sid =>
      match find (fun s => str_eqb (ChatSession.id s) sid) sessions with
      | None => None
      | Some session =>
          let newUserMsg := Message.mk user content (Some attachments) in
          let updated := ChatSession.messages session ++ [newUserMsg] in
          Some (mk_exchange sid updated [] 0%Z,
                add_placeholder sid updated
                  (optimistic_update sid updated content prev))
      end
  end.

(** The updater passed to [setSessions] when [streamChat] has settled:
    the final update after it resolved, the update of the [catch] block
    after it rejected. *)
Definition final_updater (r : settled) : updater :=
  match r with
  | Resolved => MergeUpdater
  | Rejected message => ErrorUpdater (errorMsg_of message)
  end.

(** The end of an exchange whose queue is empty. *)
Definition finish_exchange (x : exchange) (prev : sessions_state)
  : option sessions_state :=
  render x [final_updater Resolved] prev.

(** [handleSendMessage(content, attachments)] for a call of [streamChat]
    during which [steps] happen and which then settles as [r].  The
    result is the [sessions] state once React has processed all the
    updaters; [None] when an updater throws. *)
Definition handleSendMessage_at (interval : Z) (sessions : sessions_state)
    (currentSessionId : option jsstring) (content : jsstring)
    (attachments : list Attachment.t) (steps : list step)
    (r : settled) (prev : sessions_state) : option sessions_state :=
  match begin_exchange sessions currentSessionId content attachments prev with
  | None => Some prev
  | Some (x, st) =>
      match deliver interval x [] steps st with
      | None => None
      | Some (x', queue, st') => render x' (queue ++ [final_updater r]) st'
      end
  end.

Definition THROTTLE_MS : Z := 100.

Definition handleSendMessage := handleSendMessage_at THROTTLE_MS.

(** [handleSubmit] of the chat input (src/components/ChatInput.tsx): the
    arguments of [onSend], if it is called.  [App] passes its [loading]
    state as [disabled]. *)
Definition handleSubmit (input : jsstring) (attachments : list Attachment.t)
    (disabled isProcessing : bool) : option (jsstring * list Attachment.t) :=
  if (str_eqb (trim input) [] && Nat.eqb (List.length attachments) 0)
     || disabled || isProcessing
  then None
  else Some (input, attachments).

(** *** The specification's wording, for comparison *)

(** The title in the words of the specification: the first 30 characters
    of the trimmed text, or the default title. *)
Definition spec_title (content : jsstring) : jsstring :=
  match slice_to 30 (trim content) with
  | [] => NEW_CHAT
  | t => t
  end.

(** The throttle test in the words of the specification. *)
Definition spec_publishes (lastPublish now : Z) : bool :=
  (now - lastPublish >=? 100)%Z.

(** ** The state an exchange leaves behind *)

(** The [sessions] state in which every session with the identifier
    [sid] holds the messages [updated ++ tail] and the title set by the
    optimistic update, all other sessions being those of [prev]. *)
Definition after_exchange (sid : jsstring) (updated : list Message.t)
    (content : jsstring) (tail : list Message.t) (prev : sessions_state)
  : sessions_state :=
  map (fun s =>
         if str_eqb (ChatSession.id s) sid then
           ChatSession.mk (ChatSession.id s) (ChatSession.projectId s)
             (if Nat.eqb (List.length (ChatSession.messages s)) 0
              then title_of content
              else ChatSession.title s)
             (updated ++ tail) (ChatSession.timestamp s)
         else s)
      prev.

(** The closure variables after the steps. *)
Fixpoint after_steps (interval : Z) (x : exchange) (steps : list step)
  : exchange :=
  match steps with
  | [] => x
  | OnChunk chunk now :: rest =>
      after_steps interval (fst (on_chunk interval x chunk now)) rest
  | Render :: rest => after_steps interval x rest
  end.

(** The content of the placeholder once the merge updaters queued during
    the steps have been invoked: [c] as long as none was, and otherwise
    the text accumulated when React last invoked one.  [queued] tells
    whether a merge updater is waiting in the queue. *)
Fixpoint placeholder_text (interval : Z) (x : exchange) (queued : bool)
    (steps : list step) (c : jsstring) : jsstring :=
  match steps with
  | [] => if queued then aiContent x else c
  | OnChunk chunk now :: rest =>
      let '(x', publish) := on_chunk interval x chunk now in
      placeholder_text interval x' (queued || publish) rest c
  | Render :: rest =>
      placeholder_text interval x false rest (if queued then aiContent x else c)
  end.

(** ** Two exchanges on one session *)

Definition and_then {A B : Type} (m : option A) (f : A -> option B) : option B :=
  match m with
  | Some a => f a
  | None => None
  end.

Definition one_empty_session : sessions_state :=
  [ChatSession.mk (js "s1") None NEW_CHAT [] 0%Z].

(** Exchange A starts and publishes its first delta; exchange B starts
    on the same session, streams its whole reply and finishes; then a
    late delta of A arrives and A finishes. *)
Definition superseded_exchange_trace : option sessions_state :=
  and_then (begin_exchange one_empty_session (Some (js "s1"))
              (js "first question") [] one_empty_session)
    (fun '(xA, st1) =>
  and_then (deliver_chunk THROTTLE_MS xA (js "A1") 1000%Z st1)
    (fun '(xA, st2) =>
  and_then (begin_exchange st2 (Some (js "s1")) (js "second question") [] st2)
    (fun '(xB, st3) =>
  and_then (deliver_chunk THROTTLE_MS xB (js "B1") 2000%Z st3)
    (fun '(xB, st4) =>
  and_then (finish_exchange xB st4)
    (fun st5 =>
  and_then (deliver_chunk THROTTLE_MS xA (js "A2") 3000%Z st5)
    (fun '(xA, st6) =>
  finish_exchange xA st6)))))).

(** ** Sample sessions *)

Definition photo : Attachment.t :=
  Attachment.mk (js "a1") (js "photo.png") image
    (js "data:image/png;base64,AAAA") (Some (js "image/png")).

Definition notes : Attachment.t :=
  Attachment.mk (js "a2") (js "notes.txt") file (js "meeting notes") None.

Definition session_with_attachments : ChatSession.t :=
  ChatSession.mk (js "s2") None (js "Files")
    [Message.mk user (js "see attached") (Some [photo; notes]);
     Message.mk assistant (js "ok") None]
    0%Z.

(** ** Sample streams *)

Definition frame_Hel : string :=
  "data: {'choices':[{'delta':{'content':'Hel'}}]}".

Definition frame_lo : string :=
  "data: {'choices':[{'delta':{'content':'lo'}}]}".

Definition frame_malformed : string := "data: {not json".

Definition frame_indented : string :=
  " data: {'choices':[{'delta':{'content':'lo'}}]}".

Definition sentinel_line : string := "data: [DONE]".

Definition nl : list byte := [x0a].

(** A frame, a second frame and the sentinel, each ended by a line
    feed. *)
Definition stream_whole : list byte :=
  bytesq frame_Hel ++ nl ++ bytesq frame_lo ++ nl ++ bytes sentinel_line ++ nl.

(** The sentinel first, then a well-formed frame. *)
Definition stream_after_sentinel : list (list byte) :=
  [bytes sentinel_line ++ nl ++ bytesq frame_lo ++ nl].

(** A frame, then a well-formed frame without its line feed. *)
Definition stream_unterminated : list (list byte) :=
  [bytesq frame_Hel ++ nl ++ bytesq frame_lo].

(** ** Sample exchanges *)

(** The closure variables of a new exchange, and after a first delta
    that was published at its arrival. *)
Definition exchange_new : exchange := mk_exchange (js "s1") [] [] 0%Z.

Definition exchange_Hel : exchange :=
  fst (on_chunk THROTTLE_MS exchange_new (js "Hel") 1700000000000%Z).

(** * Further parts of the program *)

(** ** Sessions and projects (src/App.tsx) *)

Module Project.
Record t : Type := mk {
  id : jsstring;
  name : jsstring;
  createdAt : Z
}.
End Project.

(** [s.projectId === projectId] for a string [projectId]. *)
Definition in_project (projectId : jsstring) (s : ChatSession.t) : bool :=
  match ChatSession.projectId s with
  | Some p => str_eqb p projectId
  | None => false
  end.

(** [{ ...s, projectId: undefined }] *)
Definition without_project (s : ChatSession.t) : ChatSession.t :=
  ChatSession.mk (ChatSession.id s) None (ChatSession.title s)
    (ChatSession.messages s) (ChatSession.timestamp s).

(** [getCurrentSession]: [sessions.find(s => s.id === currentSessionId)]. *)
Definition getCurrentSession (sessions : sessions_state)
    (currentSessionId : option jsstring) : option ChatSession.t :=
  match currentSessionId with
  | Some c => find (fun s => str_eqb (ChatSession.id s) c) sessions
  | None => None
  end.

(** [handleNewChat]: [uuid] is the value of [crypto.randomUUID()], [now]
    the reading of [Date.now()].  The result is the new [sessions] state
    and the new current session identifier. *)
Definition handleNewChat (uuid : jsstring) (now : Z) (prev : sessions_state)
  : sessions_state * option jsstring :=
  let newSession := ChatSession.mk uuid None (js "New Chat") [] now in
  (newSession :: prev, Some uuid).

(** [handleDeleteSession(id)]: [currentSessionId] is the value the
    handler closes over; [uuid] and [now] are used when the last session
    is deleted. *)
Definition handleDeleteSession (id : jsstring)
    (currentSessionId : option jsstring) (uuid : jsstring) (now : Z)
    (prev : sessions_state) : sessions_state * option jsstring :=
  let updated := filter (fun s => negb (str_eqb (ChatSession.id s) id)) prev in
  let is_current :=
    match currentSessionId with
    | Some c => str_eqb c id
    | None => false
    end in
  if is_current then
    match updated with
    | first :: _ => (updated, Some (ChatSession.id first))
    | [] =>
        let newSession := ChatSession.mk uuid None (js "New Chat") [] now in
        ([newSession], Some uuid)
    end
  else (updated, currentSessionId).

(** [handleCreateProject(name)] *)
Definition handleCreateProject (name uuid : jsstring) (now : Z)
    (prev : list Project.t) : list Project.t :=
  prev ++ [Project.mk uuid name now].

(** [handleDeleteProject(projectId)]: the new [sessions] and [projects]
    states. *)
Definition handleDeleteProject (projectId : jsstring)
    (sessions : sessions_state) (projects : list Project.t)
  : sessions_state * list Project.t :=
  (map (fun s => if in_project projectId s then without_project s else s)
       sessions,
   filter (fun p => negb (str_eqb (Project.id p) projectId)) projects).

(** ** The groups of the sidebar (src/components/Sidebar.tsx) *)

(** [sessions.filter(s => !s.projectId)] *)
Definition unorganizedSessions (sessions : sessions_state) : sessions_state :=
  filter (fun s =>
            match ChatSession.projectId s with
            | None | Some [] => true
            | Some (_ :: _) => false
            end)
         sessions.

(** [projectSessions[p.id]], that is
    [sessions.filter(s => s.projectId === p.id)]. *)
Definition projectSessions (sessions : sessions_state) (projectId : jsstring)
  : sessions_state :=
  filter (in_project projectId) sessions.

(** The sessions the sidebar lists, in the order of the list: the
    unorganized ones, then those of each project. *)
Definition listed (sessions : sessions_state) (projects : list Project.t)
  : sessions_state :=
  unorganizedSessions sessions
  ++ flat_map (fun p => projectSessions sessions (Project.id p)) projects.

(** ** Writing the sessions to local storage (src/App.tsx) *)

(** What [localStorage.setItem] does with a value. *)
Inductive storage_result : Type :=
| Stored
| QuotaExceeded
| OtherStorageError.

Section Persistence.

(** The outcome of [localStorage.setItem('chatSessions',
    JSON.stringify(value))] for a value. *)
Variable setItem : sessions_state -> storage_result.

(** The persistence effect: the values handed to [JSON.stringify] and
    [setItem], in order. *)
Definition persist_sessions (sessions : sessions_state)
    (currentSessionId : option jsstring) : list sessions_state :=
  let sessionsToStore := getSessionsForStorage sessions in
  match setItem sessionsToStore with
  | QuotaExceeded =>
      match currentSessionId with
      | None | Some [] => [sessionsToStore]
      | Some _ =>
          match getCurrentSession sessions currentSessionId with
          | Some currentSession =>
              [sessionsToStore; getSessionsForStorage [currentSession]]
          | None => [sessionsToStore]
          end
      end
  | Stored | OtherStorageError => [sessionsToStore]
  end.

End Persistence.

(** ** The chat input (src/components/ChatInput.tsx, src/services/FileService.ts) *)

(** [canSend], which enables the send button. *)
Definition canSend (input : jsstring) (attachments : list Attachment.t)
    (disabled isProcessing : bool) : bool :=
  (Nat.ltb 0 (List.length (trim input))
   || Nat.ltb 0 (List.length attachments))
  && negb disabled && negb isProcessing.

(** [removeAttachment(id)] *)
Definition removeAttachment (id : jsstring) (prev : list Attachment.t)
  : list Attachment.t :=
  filter (fun a => negb (str_eqb (Attachment.id a) id)) prev.

(** A file picked by the user: its name, its MIME type, and what each
    reader yields for it ([None]: the reader fails). *)
Record File : Type := mk_file {
  file_name : jsstring;
  file_type : jsstring;
  as_data_url : option jsstring;
  as_pdf_text : option jsstring;
  as_docx_text : option jsstring;
  as_text : option jsstring
}.

Definition DOCX_TYPE : jsstring :=
  js "application/vnd.openxmlformats-officedocument.wordprocessingml.document".

(** [processFile(file)]; [None]: the promise rejects. *)
Definition processFile (f : File) : option (AttachmentType * jsstring) :=
  if startsWith (js "image/") (file_type f) then
    option_map (fun base64 => (image, base64)) (as_data_url f)
  else if str_eqb (file_type f) (js "application/pdf") then
    option_map (fun text => (file, text)) (as_pdf_text f)
  else if str_eqb (file_type f) DOCX_TYPE then
    option_map (fun text => (file, text)) (as_docx_text f)
  else
    option_map (fun text => (file, text)) (as_text f).

(** [Promise.all(files.map(async (file) => ...))]: the attachments in
    the order of the files, or [None] when one of the promises rejects.
    [uuid i] is the value [crypto.randomUUID()] yields for the file at
    position [i]. *)
Fixpoint newAttachments (uuid : nat -> jsstring) (i : nat) (files : list File)
  : option (list Attachment.t) :=
  match files with
  | [] => Some []
  | f :: rest =>
      match processFile f, newAttachments uuid (S i) rest with
      | Some (type, content), Some atts =>
          Some (Attachment.mk (uuid i) (file_name f) type content
                  (Some (file_type f)) :: atts)
      | _, _ => None
      end
  end.

(** [handleFileSelect]: the new value of the [attachments] state.  A
    failure is logged and nothing is added. *)
Definition handleFileSelect (uuid : nat -> jsstring) (files : list File)
    (prev : list Attachment.t) : list Attachment.t :=
  match files with
  | [] => prev
  | _ :: _ =>
      match newAttachments uuid 0 files with
      | Some new => prev ++ new
      | None => prev
      end
  end.

(** ** The request messages (src/services/api.ts) *)

(** A part of a multi-modal content. *)
Inductive content_part : Type :=
| TextPart (text : jsstring)
| ImageUrlPart (url : jsstring).

(** The content of a message as it is sent: a string, or parts. *)
Inductive sent_content : Type :=
| PlainContent (content : jsstring)
| ContentParts (parts : list content_part).

Record sent_message : Type := mk_sent {
  sent_role : Role;
  sent_content_of : sent_content
}.

(** The part pushed for an attachment. *)
Definition attachment_part (att : Attachment.t) : content_part :=
  match Attachment.type att with
  | image => ImageUrlPart (Attachment.content att)
  | file =>
      TextPart ([LF; LF] ++ js "[Attachment: " ++ Attachment.name att
                  ++ js "]" ++ [LF] ++ Attachment.content att ++ [LF])
  end.

(** The callback of [messages.map] that builds [formattedMessages], in
    [streamChat] and in [sendChat]. *)
Definition format_message (msg : Message.t) : sent_message :=
  match Message.attachments msg with
  | None | Some [] => mk_sent (Message.role msg) (PlainContent (Message.content msg))
  | Some atts =>
      let contentParts : list content_part := [] in
      let contentParts :=
        match Message.content msg with
        | [] => contentParts
        | text => contentParts ++ [TextPart text]
        end in
      let contentParts :=
        fold_left (fun parts att => parts ++ [attachment_part att]) atts
          contentParts in
      mk_sent (Message.role msg) (ContentParts contentParts)
  end.

(** The URLs of the image parts of a sent message. *)
Definition image_urls (m : sent_message) : list jsstring :=
  match sent_content_of m with
  | PlainContent _ => []
  | ContentParts parts =>
      flat_map (fun p => match p with
                         | ImageUrlPart url => [url]
                         | TextPart _ => []
                         end) parts
  end.

(** ** The calls that are not streamed (src/services/api.ts) *)

(** How an async function ends: it returns a value, it throws an error
    with a message of the program's, or the host throws (a TypeError or
    a SyntaxError, whose message the engine chooses). *)
Inductive outcome (A : Type) : Type :=
| Returns (a : A)
| Throws (message : jsstring)
| ThrowsHost.

Arguments Returns {A} a.
Arguments Throws {A} message.
Arguments ThrowsHost {A}.

(** What [fetch] does: it rejects, or it yields a response; [body] is
    what [response.json()] resolves to ([None]: it rejects). *)
Inductive http_response : Type :=
| FetchFails (message : jsstring)
| Response (ok : bool) (status : N) (statusText : jsstring) (body : option json).

Record SummaryResult : Type := mk_summary {
  sec10 : json;
  min1 : json;
  fullBreakdown : json;
  actionPoints : list json
}.

(** [!(config.apiKey || import.meta.env.VITE_OPENROUTER_API_KEY)] *)
Definition key_missing (config : ApiConfig) (env_key : option jsstring) : bool :=
  match apiKey config with
  | [] => match env_key with
          | None | Some [] => true
          | Some (_ :: _) => false
          end
  | _ :: _ => false
  end.

(** [data.choices[0]?.message?.content]; the outer [None] is a
    TypeError, the inner one is [undefined]. *)
Definition choices0_message_content (data : json) : option (option json) :=
  match data with
  | JNull => None
  | _ =>
      match get_property data (js "choices") with
      | None | Some JNull => None
      | Some choices =>
          Some match get_index0 choices with
               | None | Some JNull => None
               | Some choice =>
                   match get_property choice (js "message") with
                   | None | Some JNull => None
                   | Some message => get_property message (js "content")
                   end
               end
      end
  end.

Definition PARSE_FAILED : jsstring :=
  js "Failed to parse AI response. The model might not have returned valid JSON.".

Section Calls.

Variable JSON_parse : jsstring -> option json.
Variable ToString : json -> converted.

(** The error thrown by [summarizeText] and [sendChat] when
    [response.ok] is false; a body that is not JSON counts as the empty
    object.  A TypeError thrown while the template literal is evaluated
    is the error of the call. *)
Definition throw_api_error {A : Type} (status : N) (statusText : jsstring)
    (body : option json) : outcome A :=
  let errorData := match body with Some d => d | None => JObj [] end in
  match errorData with
  | JNull => ThrowsHost
  | _ =>
      let nested :=
        match get_property errorData (js "error") with
        | None | Some JNull => None
        | Some err => get_property err (js "message")
        end in
      match ToString (JNum (inject_Z (Z.of_N status))) with
      | TypeError _ => ThrowsHost
      | Converts shown =>
          match template ToString (js_or nested (JStr statusText)) with
          | TypeError _ => ThrowsHost
          | Converts text => Throws (js "API Error: " ++ shown ++ js " " ++ text)
          end
      end
  end.

(** [summarizeText(text, config)]: whether [fetch] was called, and how
    the call ends. *)
Definition summarizeText (config : ApiConfig) (env_key : option jsstring)
    (net : http_response) : bool * outcome SummaryResult :=
  if key_missing config env_key then (false, Throws API_KEY_REQUIRED)
  else
    (true,
     match net with
     | FetchFails m => Throws m
     | Response ok status statusText body =>
         if negb ok then throw_api_error status statusText body
         else
           match body with
           | None => ThrowsHost
           | Some data =>
               match choices0_message_content data with
               | None => ThrowsHost
               | Some content =>
                   match content with
                   | None => Throws (js "No content received from API")
                   | Some c =>
                       if negb (truthy c) then
                         Throws (js "No content received from API")
                       else
                         match template ToString c with
                         | TypeError _ => Throws PARSE_FAILED
                         | Converts text =>
                             match JSON_parse text with
                             | None | Some JNull => Throws PARSE_FAILED
                             | Some parsed =>
                                 Returns
                                   (mk_summary
                                      (js_or (get_property parsed (js "sec10"))
                                         (JStr (js "Summary unavailable")))
                                      (js_or (get_property parsed (js "min1"))
                                         (JStr (js "Summary unavailable")))
                                      (js_or (get_property parsed (js "fullBreakdown"))
                                         (JStr (js "Summary unavailable")))
                                      (match get_property parsed (js "actionPoints") with
                                       | Some (JArr items) => items
                                       | _ => []
                                       end))
                             end
                         end
                   end
               end
           end
     end).

(** The body shared, up to the fallback text, by [generateReply] and
    [askQuestion]. *)
Definition reply_or (fallback : jsstring) (config : ApiConfig)
    (env_key : option jsstring) (net : http_response) : bool * outcome json :=
  if key_missing config env_key then (false, Throws API_KEY_REQUIRED)
  else
    (true,
     match net with
     | FetchFails m => Throws m
     | Response ok status statusText body =>
         if negb ok then
           match ToString (JNum (inject_Z (Z.of_N status))) with
           | TypeError _ => ThrowsHost
           | Converts shown => Throws (js "API Error: " ++ shown)
           end
         else
           match body with
           | None => ThrowsHost
           | Some data =>
               match choices0_message_content data with
               | None => ThrowsHost
               | Some content => Returns (js_or content (JStr fallback))
               end
           end
     end).

(** [generateReply(summary, intent, config)] *)
Definition generateReply := reply_or (js "Could not generate reply.").

(** [askQuestion(context, question, config)] *)
Definition askQuestion := reply_or (js "Could not generate answer.").

(** [sendChat(messages, config)]: there is no test of the key. *)
Definition sendChat (config : ApiConfig) (env_key : option jsstring)
    (net : http_response) : bool * outcome json :=
  (true,
   match net with
   | FetchFails m => Throws m
   | Response ok status statusText body =>
       if negb ok then throw_api_error status statusText body
       else
         match body with
         | None => ThrowsHost
         | Some data =>
             match choices0_message_content data with
             | None => ThrowsHost
             | Some content => Returns (js_or content (JStr (js "No response generated.")))
             end
         end
   end).

End Calls.

(** ** A reference for [ToString]

    [ToString] on the values [JSON.parse] returns.  Null, booleans and
    strings are exact.  A number is exact when it is an integer of
    magnitude below 2^53, whatever fraction denotes it; other numbers
    are outside the domain of the reference.  An object has
    [Object.prototype] as its prototype: if it has an own property
    [toString], which is no function, neither it nor [valueOf] yields a
    primitive and a TypeError is thrown, worded as V8 does; otherwise
    [Object.prototype.toString] is called.  An array is joined by
    commas, null elements giving the empty string and the first element
    whose conversion throws ending the conversion. *)

Fixpoint decimal_digits (fuel : nat) (n : N) : jsstring :=
  match fuel with
  | O => []
  | S fuel' =>
      if n <? 10 then [48 + n]
      else decimal_digits fuel' (n / 10) ++ [48 + n mod 10]
  end.

Definition NOT_PRIMITIVE : jsstring :=
  js "Cannot convert object to primitive value".

Fixpoint ToString_reference (v : json) : converted :=
  match v with
  | JNull => Converts (js "null")
  | JBool true => Converts (js "true")
  | JBool false => Converts (js "false")
  | JNum q =>
      let n := (Z.abs_N (Qnum q) / Npos (Qden q))%N in
      Converts ((if negb (n =? 0) && (Qnum q <? 0)%Z then js "-" else [])
                  ++ decimal_digits (S (N.to_nat (N.log2 n))) n)
  | JStr s => Converts s
  | JArr items =>
      (fix join (l : list json) : converted :=
         match l with
         | [] => Converts []
         | x :: rest =>
             match match x with
                   | JNull => Converts []
                   | _ => ToString_reference x
                   end with
             | TypeError m => TypeError m
             | Converts first =>
                 match rest with
                 | [] => Converts first
                 | _ :: _ =>
                     match join rest with
                     | TypeError m => TypeError m
                     | Converts others => Converts (first ++ [44] ++ others)
                     end
                 end
             end
         end) items
  | JObj members =>
      match lookup_member (js "toString") members with
      | Some _ => TypeError NOT_PRIMITIVE
      | None => Converts (js "[object Object]")
      end
  end.

(** ** What is stored *)

(** A [sessions] value without image attachment. *)
Definition image_free (value : sessions_state) : Prop :=
  forall (s : ChatSession.t) (m : Message.t) (atts : list Attachment.t)
         (a : Attachment.t),
    In s value -> In m (ChatSession.messages s) ->
    Message.attachments m = Some atts -> In a atts ->
    Attachment.type a = file.

(** ** Further samples *)

Definition work : Project.t := Project.mk (js "p1") (js "Work") 0%Z.

Definition session_in_work : ChatSession.t :=
  ChatSession.mk (js "s3") (Some (js "p1")) (js "Plan") [] 0%Z.

(** A session whose project is not in the list. *)
Definition session_orphan : ChatSession.t :=
  ChatSession.mk (js "s4") (Some (js "p0")) (js "Lost") [] 0%Z.

Definition two_sessions : sessions_state :=
  [ChatSession.mk (js "s1") None NEW_CHAT [] 0%Z; session_with_attachments].

(** The session of [exchange_Hel] before and after React invokes a merge
    updater. *)
Definition session_streaming : sessions_state :=
  [ChatSession.mk (js "s1") None (js "Hi AI")
     [Message.mk user (js "Hi AI") (Some []); Message.mk assistant [] None]
     0%Z].

Definition session_streamed : sessions_state :=
  [ChatSession.mk (js "s1") None (js "Hi AI")
     [Message.mk user (js "Hi AI") (Some []);
      Message.mk assistant (js "Hel") None]
     0%Z].

(** A storage that is full. *)
Definition quota_always (value : sessions_state) : storage_result :=
  QuotaExceeded.

Definition stored_message : Message.t :=
  Message.mk user (js "see attached") (Some [notes]).

Definition stored_session : ChatSession.t :=
  ChatSession.mk (js "s2") None (js "Files")
    [stored_message; Message.mk assistant (js "ok") None] 0%Z.

Definition file_png : File :=
  mk_file (js "photo.png") (js "image/png")
    (Some (js "data:image/png;base64,AAAA")) None None None.

Definition file_txt : File :=
  mk_file (js "notes.txt") (js "text/plain") None None None
    (Some (js "meeting notes")).

(** A PDF file the PDF reader fails on. *)
Definition file_pdf_broken : File :=
  mk_file (js "scan.pdf") (js "application/pdf") None None None
    (Some (js "%PDF")).

Definition uuid_sample (i : nat) : jsstring := js "f" ++ [48 + N.of_nat i].

(** The attachments made of [file_png] and [file_txt]. *)
Definition picked : list Attachment.t :=
  [Attachment.mk (js "f0") (js "photo.png") image
     (js "data:image/png;base64,AAAA") (Some (js "image/png"));
   Attachment.mk (js "f1") (js "notes.txt") file (js "meeting notes")
     (Some (js "text/plain"))].

Definition config_with_key : ApiConfig := mk_config (js "sk-test") [].

Definition config_without_key : ApiConfig := mk_config [] [].

Definition error_body : string := "{'error':{'message':'Invalid API key'}}".

Definition error_data : json :=
  JObj [(js "error", JObj [(js "message", JStr (js "Invalid API key"))])].

(** An error body whose message is an object with an own [toString]. *)
Definition error_body_object : string := "{'error':{'message':{'toString':'x'}}}".

Definition error_message_object : json := JObj [(js "toString", JStr (js "x"))].

(** A completion whose content is a JSON text with two of the four
    fields. *)
Definition summary_response : http_response :=
  Response true 200 (js "OK")
    (Some (JObj [(js "choices",
                  JArr [JObj [(js "message",
                               JObj [(js "content",
                                      JStr (jsq "{'sec10':'Short','actionPoints':['Call Bob']}"))])]])])).

Definition summary_result : SummaryResult :=
  mk_summary (JStr (js "Short")) (JStr (js "Summary unavailable"))
    (JStr (js "Summary unavailable")) [JStr (js "Call Bob")].


(** * Properties *)

(** ** Strings and lines *)

Lemma str_eqb_eq (a b : jsstring) : str_eqb a b = true <-> a = b.
Proof.
  revert b; induction a as [|x a IH]; intros [|y b]; simpl;
    try (split; [discriminate | discriminate]); try tauto.
  rewrite andb_true_iff, N.eqb_eq, IH.
  split; [intros [-> ->]; reflexivity | intros H; inversion H; auto].
Qed.

Lemma str_eqb_refl (a : jsstring) : str_eqb a a = true.
Proof. apply str_eqb_eq; reflexivity. Qed.

Lemma str_eqb_neq (a b : jsstring) : str_eqb a b = false <-> a <> b.
Proof.
  rewrite <- str_eqb_eq. destruct (str_eqb a b); split; congruence.
Qed.

Lemma split_nl_nonempty (s : jsstring) : split_nl s <> [].
Proof.
  destruct s as [|c s]; simpl; [discriminate|].
  destruct (c =? LF); [discriminate|].
  destruct (split_nl s); discriminate.
Qed.

Lemma removelast_cons {A : Type} (x : A) (l : list A) :
  l <> [] -> removelast (x :: l) = x :: removelast l.
Proof. destruct l; [congruence | reflexivity]. Qed.

Lemma last_cons {A : Type} (x : A) (l : list A) (d : A) :
  l <> [] -> last (x :: l) d = last l d.
Proof. destruct l; [congruence | reflexivity]. Qed.

(** Splitting a concatenation: the last piece of the first text is
    continued by the second text. *)
Lemma split_nl_app (a b : jsstring) :
  split_nl (a ++ b)
  = removelast (split_nl a) ++ split_nl (last (split_nl a) [] ++ b).
Proof.
  induction a as [|c a IH]; [reflexivity|].
  simpl app. simpl split_nl.
  destruct (c =? LF) eqn:Ec.
  - rewrite removelast_cons, last_cons by apply split_nl_nonempty.
    rewrite IH. reflexivity.
  - rewrite IH.
    destruct (split_nl a) as [|l ls] eqn:Ea; [now apply split_nl_nonempty in Ea|].
    destruct ls as [|l' ls].
    + simpl. rewrite Ec. reflexivity.
    + change (removelast (l :: l' :: ls)) with (l :: removelast (l' :: ls)).
      change (last (l :: l' :: ls) []) with (last (l' :: ls) []).
      change (removelast ((c :: l) :: l' :: ls))
        with ((c :: l) :: removelast (l' :: ls)).
      change (last ((c :: l) :: l' :: ls) []) with (last (l' :: ls) []).
      reflexivity.
Qed.

(** A text without line feed is a single, incomplete line. *)
Lemma split_nl_no_lf (s : jsstring) :
  ~ In LF s -> split_nl s = [s].
Proof.
  induction s as [|c s IH]; intros H; [reflexivity|].
  simpl. destruct (c =? LF) eqn:Ec.
  - apply N.eqb_eq in Ec. exfalso. apply H. now left.
  - rewrite IH; [reflexivity|]. intros Hin. apply H. now right.
Qed.

(** The piece kept in the buffer holds no line feed. *)
Lemma last_split_nl_no_lf (s : jsstring) : ~ In LF (last (split_nl s) []).
Proof.
  induction s as [|c s IH]; [simpl; tauto|].
  simpl split_nl. destruct (c =? LF) eqn:Ec.
  - rewrite last_cons by apply split_nl_nonempty. exact IH.
  - destruct (split_nl s) as [|l ls] eqn:Es; [now apply split_nl_nonempty in Es|].
    destruct ls as [|l' ls].
    + simpl in *. intros [H|H]; [|tauto].
      apply N.eqb_neq in Ec. congruence.
    + exact IH.
Qed.

Lemma removelast_app_nonempty {A : Type} (l l' : list A) :
  l' <> [] -> removelast (l ++ l') = l ++ removelast l'.
Proof. intros H. now apply removelast_app. Qed.

(** ** The streaming decoder *)

Lemma decode_app (d : TextDecoder) (a b : list byte) :
  decode d (a ++ b)
  = let '(d1, out1) := decode d a in
    let '(d2, out2) := decode d1 b in
    (d2, out1 ++ out2).
Proof.
  revert d; induction a as [|x a IH]; intros d; simpl.
  - destruct (decode d b); reflexivity.
  - destruct (decode_byte d x) as [d1 o1]. rewrite IH.
    destruct (decode d1 a) as [d2 o2]. destruct (decode d2 b) as [d3 o3].
    now rewrite app_assoc.
Qed.

Section StreamChatProperties.

Variable JSON_parse : jsstring -> option json.

Lemma before_sentinel_app (l1 l2 : list jsstring) :
  before_sentinel (l1 ++ l2)
  = if existsb is_sentinel l1 then before_sentinel l1
    else before_sentinel l1 ++ before_sentinel l2.
Proof.
  induction l1 as [|l l1 IH]; [reflexivity|].
  simpl. destruct (is_sentinel l); simpl; [reflexivity|].
  rewrite IH. destruct (existsb is_sentinel l1); reflexivity.
Qed.

(** The loop over the lines emits the deltas of the lines before the
    first sentinel line and returns exactly when there is one. *)
Lemma for_lines_eq (lines : list jsstring) :
  for_lines JSON_parse lines
  = (flat_map (line_delta JSON_parse) (before_sentinel lines),
     existsb is_sentinel lines).
Proof.
  induction lines as [|l lines IH]; [reflexivity|].
  cbn [for_lines before_sentinel existsb]. rewrite IH.
  assert (Hs : is_sentinel l
               = match classify l with Sentinel => true | _ => false end)
    by reflexivity.
  assert (Hd : line_delta JSON_parse l
               = match classify l with
                 | Frame payload =>
                     match frame_delta JSON_parse payload with
                     | Some content => [content]
                     | None => []
                     end
                 | _ => []
                 end)
    by reflexivity.
  destruct (classify l); rewrite Hs; cbn [flat_map orb]; rewrite ?Hd;
    try reflexivity.
  destruct (frame_delta JSON_parse payload); reflexivity.
Qed.

Lemma run_text_app (a b : jsstring) (e : ending) :
  run_text JSON_parse (a ++ b) e
  = let lines := complete_lines a in
    if existsb is_sentinel lines
    then (flat_map (line_delta JSON_parse) (before_sentinel lines), Resolved)
    else
      let '(out, r) := run_text JSON_parse (last (split_nl a) [] ++ b) e in
      (flat_map (line_delta JSON_parse) (before_sentinel lines) ++ out, r).
Proof.
  unfold run_text, complete_lines. cbv zeta.
  rewrite split_nl_app, removelast_app_nonempty by apply split_nl_nonempty.
  rewrite before_sentinel_app, existsb_app.
  destruct (existsb is_sentinel (removelast (split_nl a))); simpl.
  - reflexivity.
  - now rewrite flat_map_app.
Qed.

(** The read loop computes what [run_text] reads off the whole text:
    the buffer followed by everything the decoder yields. *)
Lemma read_loop_text (reads : list (list byte)) :
  forall (d : TextDecoder) (buffer : jsstring) (e : ending),
    ~ In LF buffer ->
    read_loop JSON_parse d buffer reads e
    = run_text JSON_parse (buffer ++ snd (decode d (concat reads))) e.
Proof.
  induction reads as [|value rest IH]; intros d buffer e Hb.
  - simpl. rewrite app_nil_r. unfold run_text, complete_lines.
    rewrite split_nl_no_lf by assumption. reflexivity.
  - simpl read_loop. simpl concat. rewrite decode_app.
    destruct (decode d value) as [d1 chunk].
    specialize (IH d1 (last (split_nl (buffer ++ chunk)) []) e
                  (last_split_nl_no_lf _)).
    destruct (decode d1 (concat rest)) as [d2 out2]. simpl snd in *.
    rewrite app_assoc, run_text_app. cbv zeta.
    rewrite for_lines_eq. unfold complete_lines.
    destruct (existsb is_sentinel (removelast (split_nl (buffer ++ chunk)))).
    + reflexivity.
    + rewrite IH. reflexivity.
Qed.

Corollary streamChat_loop_text (reads : list (list byte)) (e : ending) :
  read_loop JSON_parse new_TextDecoder [] reads e
  = run_text JSON_parse (decoded_text reads) e.
Proof. apply (read_loop_text reads new_TextDecoder [] e). simpl; tauto. Qed.

End StreamChatProperties.

(** ** A line feed comes from the byte 0x0A only *)

Lemma land_ones_mod (b k : N) : N.land b (N.ones k) = b mod 2 ^ k.
Proof. apply N.land_ones. Qed.

Ltac bool_hyps :=
  repeat match goal with
    | H : (_ && _)%bool = true |- _ => apply andb_true_iff in H; destruct H
    | H : (_ && _)%bool = false |- _ => apply andb_false_iff in H
    | H : (_ <=? _) = true |- _ => apply N.leb_le in H
    | H : (_ <=? _) = false |- _ => apply N.leb_gt in H
    | H : (_ <? _) = true |- _ => apply N.ltb_lt in H
    | H : (_ <? _) = false |- _ => apply N.ltb_ge in H
    | H : (_ =? _) = true |- _ => apply N.eqb_eq in H
    | H : (_ =? _) = false |- _ => apply N.eqb_neq in H
    | H : negb _ = true |- _ => apply negb_true_iff in H
    | H : negb _ = false |- _ => apply negb_false_iff in H
    end.

Lemma utf8_lead_ok (b : N) :
  utf8_ok (fst (utf8_lead b))
  /\ (b <> LF -> ~ In LF (snd (utf8_lead b))).
Proof.
  unfold utf8_lead, utf8_ok, utf8_init, LF, REPLACEMENT.
  repeat match goal with
    | |- context [if ?c then _ else _] => destruct c eqn:?
    end;
    cbn [fst snd u_upper u_bytes_needed u_code_point u_lower In];
    bool_hyps;
    (split; [split; [lia|] | intros Hb Hin; intuition (try lia; try congruence)]);
    try (left; reflexivity); try (right; right; lia).
  - right; left. change 31 with (N.ones 5). rewrite land_ones_mod.
    change (2 ^ 5) with 32. pose proof (N.div_mod b 32). lia.
  - right; left. change 15 with (N.ones 4). rewrite land_ones_mod.
    change (2 ^ 4) with 16. pose proof (N.div_mod b 16). lia.
  - right; left. change 15 with (N.ones 4). rewrite land_ones_mod.
    change (2 ^ 4) with 16. pose proof (N.div_mod b 16). lia.
  - right; left. change 7 with (N.ones 3). rewrite land_ones_mod.
    change (2 ^ 3) with 8. pose proof (N.div_mod b 8). lia.
  - right; left. change 7 with (N.ones 3). rewrite land_ones_mod.
    change (2 ^ 3) with 8. pose proof (N.div_mod b 8). lia.
Qed.

Lemma continuation_code_point (cp b : N) :
  cp <> 0 \/ (144 <= b /\ b <= 191) ->
  let cp' := N.lor (N.shiftl cp 6) (N.land b 63) in
  cp' <> 0 /\ cp' <> LF.
Proof.
  intros H cp'. destruct (N.eq_dec cp 0) as [-> | Hcp].
  - destruct H as [H | [Hlo Hhi]]; [congruence|].
    subst cp'. rewrite N.shiftl_0_l, N.lor_0_l.
    change 63 with (N.ones 6). rewrite land_ones_mod. change (2 ^ 6) with 64.
    pose proof (N.div_mod b 64). unfold LF. lia.
  - assert (Hs : N.shiftr cp' 6 = cp).
    { subst cp'. rewrite N.shiftr_lor, N.shiftr_shiftl_l by lia.
      change (6 - 6) with 0. rewrite N.shiftl_0_r.
      change 63 with (N.ones 6). rewrite land_ones_mod, N.shiftr_div_pow2.
      rewrite N.div_small by (apply N.mod_lt; discriminate).
      apply N.lor_0_r. }
    split; intros E; rewrite E in Hs; vm_compute in Hs; congruence.
Qed.

Lemma utf8_handler_ok (st : utf8_state) (b : N) :
  utf8_ok st ->
  utf8_ok (fst (utf8_handler st b))
  /\ (b <> LF -> ~ In LF (snd (utf8_handler st b))).
Proof.
  intros [Hup Hst]. unfold utf8_handler.
  destruct (u_bytes_needed st =? 0) eqn:En; [apply utf8_lead_ok|].
  destruct (negb ((u_lower st <=? b) && (b <=? u_upper st))) eqn:Er.
  - destruct (utf8_lead_ok b) as [Hok Hlf].
    destruct (utf8_lead b) as [st' out]. simpl in *. split; [exact Hok|].
    intros Hb [H|H]; [discriminate H | now apply Hlf].
  - bool_hyps.
    assert (Hc : u_code_point st <> 0 \/ (144 <= b /\ b <= 191)).
    { destruct Hst as [K | [K | K]]; [congruence | now left | right; lia]. }
    destruct (continuation_code_point _ _ Hc) as [Hnz Hnl].
    destruct (u_bytes_seen st + 1 =? u_bytes_needed st); simpl.
    + split; [unfold utf8_ok; simpl; split; [lia | now left]|].
      intros _ [E|[]]. now apply Hnl.
    + split; [unfold utf8_ok; simpl; split; [lia | right; now left]|].
      intros _ [].
Qed.

Lemma utf16_no_lf (cp : N) : cp <> LF -> ~ In LF (utf16 cp).
Proof.
  unfold utf16, LF. intros Hcp. destruct (cp <? 65536); cbn [In]; lia.
Qed.

Lemma serialize_no_lf (items : list N) :
  forall seen, ~ In LF items -> ~ In LF (snd (serialize seen items)).
Proof.
  induction items as [|cp rest IH]; intros seen H; [simpl; tauto|].
  specialize (IH true (fun Hin => H (or_intror Hin))).
  cbn [serialize]. destruct (serialize true rest) as [seen' out].
  cbn [snd] in *. rewrite in_app_iff. intros [Hin|Hin]; [|tauto].
  destruct (negb seen && (cp =? BOM)); [exact Hin|].
  revert Hin. apply utf16_no_lf. intros E. apply H. now left.
Qed.

Lemma byte_to_N_lf (b : byte) : b <> x0a -> Byte.to_N b <> LF.
Proof.
  intros Hb E. apply Hb. apply Byte.to_of_N_iff in E.
  change (Byte.of_N LF) with (Some x0a) in E. congruence.
Qed.

Lemma decode_ok (value : list byte) :
  forall d, decoder_ok d ->
    decoder_ok (fst (decode d value))
    /\ (~ In x0a value -> ~ In LF (snd (decode d value))).
Proof.
  induction value as [|b rest IH]; intros d Hd; simpl; [tauto|].
  unfold decode_byte.
  destruct (utf8_handler_ok (d_utf8 d) (Byte.to_N b) Hd) as [Hok Hlf].
  destruct (utf8_handler (d_utf8 d) (Byte.to_N b)) as [st items].
  pose proof (serialize_no_lf items (d_bom_seen d)) as Hser.
  destruct (serialize (d_bom_seen d) items) as [seen out1].
  destruct (IH (mk_decoder st seen) Hok) as [Hok' Hlf'].
  destruct (decode (mk_decoder st seen) rest) as [d2 out2]. simpl in *.
  split; [exact Hok'|]. intros Hnot. rewrite in_app_iff. intros [Hin|Hin].
  - apply Hser; [|exact Hin]. apply Hlf. apply byte_to_N_lf. tauto.
  - apply Hlf'; tauto.
Qed.

Lemma new_TextDecoder_ok : decoder_ok new_TextDecoder.
Proof. unfold decoder_ok, utf8_ok; simpl. split; [lia | now left]. Qed.

(** ** The frame decoder: ordering, chunk boundaries, sentinel, tail *)

Section DecoderClaims.

Variable JSON_parse : jsstring -> option json.

Lemma is_sentinel_trim (line : jsstring) :
  is_sentinel line = true <-> trim line = js "data: [DONE]".
Proof.
  unfold is_sentinel, classify.
  destruct (str_eqb (trim line) (js "")) eqn:E0.
  - apply str_eqb_eq in E0. rewrite E0. split; discriminate.
  - destruct (str_eqb (trim line) (js "data: [DONE]")) eqn:E1.
    + apply str_eqb_eq in E1. tauto.
    + apply str_eqb_neq in E1.
      destruct (startsWith (js "data: ") line); split; (discriminate || tauto).
Qed.

(** C3, amended.  For every sequence of byte chunks and either way the
    stream ends, [onChunk] receives, in feed order, the truthy
    [choices[0]?.delta?.content] values of the lines that are terminated
    by a line feed, precede the first sentinel line and start with
    [data: ]; lines after the sentinel and a final unterminated line
    contribute nothing.  Any other way of cutting the same bytes into
    chunks gives the same deltas, hence the same concatenation, and the
    same completion. *)
Theorem streamChat_deltas_chunk_invariant (reads : list (list byte)) (e : ending) :
  read_loop JSON_parse new_TextDecoder [] reads e
  = (flat_map (line_delta JSON_parse)
       (before_sentinel (complete_lines (decoded_text reads))),
     if existsb is_sentinel (complete_lines (decoded_text reads))
     then Resolved else settle e)
  /\ (forall reads' : list (list byte),
        concat reads' = concat reads ->
        read_loop JSON_parse new_TextDecoder [] reads' e
        = read_loop JSON_parse new_TextDecoder [] reads e
        /\ forall (ToString : json -> converted) (config : ApiConfig)
                  (env_key : option jsstring),
            streamChat JSON_parse ToString config env_key (Body reads' e)
            = streamChat JSON_parse ToString config env_key (Body reads e)).
Proof.
  split.
  - apply streamChat_loop_text.
  - intros reads' Hcat.
    assert (Hloop : read_loop JSON_parse new_TextDecoder [] reads' e
                    = read_loop JSON_parse new_TextDecoder [] reads e).
    { rewrite !streamChat_loop_text. unfold decoded_text. now rewrite Hcat. }
    split; [exact Hloop|]. intros ToString config env_key.
    unfold streamChat. now rewrite Hloop.
Qed.

(** C4.  When a complete line of the decoded stream is the sentinel
    [data: [DONE]] (after trimming), the call resolves, whatever follows
    and however the transport would have ended, and the deltas are those
    of the lines before the sentinel: no line after it produces one. *)
Theorem sentinel_terminates (reads : list (list byte)) (e : ending)
    (before : list jsstring) (line : jsstring) (after : list jsstring) :
  complete_lines (decoded_text reads) = before ++ line :: after ->
  trim line = js "data: [DONE]" ->
  read_loop JSON_parse new_TextDecoder [] reads e
  = (flat_map (line_delta JSON_parse) (before_sentinel before), Resolved).
Proof.
  intros Hlines Hline. rewrite streamChat_loop_text. unfold run_text.
  rewrite Hlines, before_sentinel_app, existsb_app.
  apply is_sentinel_trim in Hline.
  cbn [before_sentinel existsb]. rewrite Hline.
  destruct (existsb is_sentinel before); cbn [orb].
  - reflexivity.
  - now rewrite app_nil_r.
Qed.

(** C10.  Bytes after the last line feed of the stream are dropped: a
    stream that continues with bytes holding no line feed, however they
    are cut into chunks, gives the same deltas and completion as the
    stream without them, so the text left in the line buffer when the
    transport reports the end is never handled as a frame. *)
Theorem unterminated_tail_dropped (reads reads' : list (list byte))
    (tail : list byte) (e : ending) :
  ~ In x0a tail ->
  concat reads' = concat reads ++ tail ->
  read_loop JSON_parse new_TextDecoder [] reads' e
  = read_loop JSON_parse new_TextDecoder [] reads e.
Proof.
  intros Htail Hcat. rewrite !streamChat_loop_text. unfold decoded_text.
  rewrite Hcat, decode_app.
  destruct (decode_ok (concat reads) new_TextDecoder new_TextDecoder_ok)
    as [Hok _].
  destruct (decode new_TextDecoder (concat reads)) as [d1 text].
  destruct (decode_ok tail d1 Hok) as [_ Hlf]. specialize (Hlf Htail).
  destruct (decode d1 tail) as [d2 text']. cbn [fst snd] in *.
  rewrite <- (app_nil_r text) at 2.
  rewrite (run_text_app JSON_parse text text'), (run_text_app JSON_parse text []).
  cbv zeta.
  destruct (existsb is_sentinel (complete_lines text)); [reflexivity|].
  assert (Hrest : forall t, ~ In LF t ->
            run_text JSON_parse (last (split_nl text) [] ++ t) e = ([], settle e)).
  { intros t Ht. unfold run_text, complete_lines.
    rewrite split_nl_no_lf; [reflexivity|].
    rewrite in_app_iff. intros [H|H]; [|tauto].
    now apply (last_split_nl_no_lf text). }
  rewrite (Hrest text' Hlf), (Hrest [] (fun H => H)). reflexivity.
Qed.

End DecoderClaims.

Section FrameValidity.

Variable JSON_parse : jsstring -> option json.

Lemma for_lines_skip (before : list jsstring) (line : jsstring)
    (after : list jsstring) :
  is_sentinel line = false ->
  line_delta JSON_parse line = [] ->
  for_lines JSON_parse (before ++ line :: after)
  = for_lines JSON_parse (before ++ after).
Proof.
  intros Hs Hd. rewrite !for_lines_eq, !before_sentinel_app, !existsb_app.
  cbn [before_sentinel existsb]. rewrite Hs. cbn [orb].
  destruct (existsb is_sentinel before); [reflexivity|].
  rewrite !flat_map_app. cbn [flat_map]. rewrite Hd. reflexivity.
Qed.

(** C5, amended.  The loop body attempts a delta extraction for a line
    exactly when the trimmed line is neither empty nor the sentinel and
    the line itself, untrimmed, starts with [data: ]; the payload is the
    line without its first six code units.  Every line for which no
    attempt is made and which is not the sentinel, be it blank or not,
    and every frame whose payload [JSON.parse] rejects, can be inserted
    anywhere among the lines without changing the deltas of the other
    lines or ending the loop. *)
Theorem frame_validity :
  (forall line payload : jsstring,
      classify line = Frame payload
      <-> trim line <> []
          /\ trim line <> js "data: [DONE]"
          /\ startsWith (js "data: ") line = true
          /\ payload = slice_from 6 line)
  /\ (forall (before : list jsstring) (line : jsstring) (after : list jsstring),
         (trim line <> js "data: [DONE]"
          /\ (trim line = [] \/ startsWith (js "data: ") line = false))
         \/ (exists payload, classify line = Frame payload
                             /\ JSON_parse payload = None) ->
         for_lines JSON_parse (before ++ line :: after)
         = for_lines JSON_parse (before ++ after)).
Proof.
  split.
  - intros line payload. unfold classify. change (js "") with (@nil N).
    destruct (str_eqb (trim line) []) eqn:E0.
    { apply str_eqb_eq in E0. split; [discriminate | tauto]. }
    destruct (str_eqb (trim line) (js "data: [DONE]")) eqn:E1.
    { apply str_eqb_eq in E1. split; [discriminate | tauto]. }
    apply str_eqb_neq in E0, E1.
    destruct (startsWith (js "data: ") line).
    + split; [intros H; inversion H; auto | intros (_ & _ & _ & ->); reflexivity].
    + split; [discriminate | intros (_ & _ & H & _); discriminate H].
  - intros before line after H.
    assert (Hk : classify line = Blank \/ classify line = Other
                 \/ exists payload, classify line = Frame payload
                                     /\ JSON_parse payload = None).
    { destruct H as [[Hs Hn] | H]; [|now right; right].
      unfold classify. change (js "") with (@nil N).
      destruct (str_eqb (trim line) []) eqn:E0; [now left|].
      apply str_eqb_neq in E0. apply str_eqb_neq in Hs. rewrite Hs.
      destruct Hn as [Hn | Hn]; [contradiction|]. rewrite Hn. right. now left. }
    apply for_lines_skip.
    + unfold is_sentinel.
      destruct Hk as [-> | [-> | (p & -> & _)]]; reflexivity.
    + unfold line_delta, frame_delta.
      destruct Hk as [-> | [-> | (p & -> & ->)]]; reflexivity.
Qed.

End FrameValidity.

(** ** The decoder on the sample streams *)

Lemma not_in_x0a (value : list byte) :
  forallb (fun b => negb (Byte.to_N b =? LF)) value = true -> ~ In x0a value.
Proof.
  intros H Hin. rewrite forallb_forall in H. specialize (H _ Hin).
  discriminate H.
Qed.

Example parse_delta :
  JSON.parse (jsq "{'choices':[{'delta':{'content':'Hel'}}]}")
  = Some (JObj [(js "choices",
                 JArr [JObj [(js "delta", JObj [(js "content", JStr (js "Hel"))])]])]).
Proof. vm_compute. reflexivity. Qed.

Example parse_malformed : JSON.parse (js "{not json") = None.
Proof. vm_compute. reflexivity. Qed.

Example parse_mixed :
  JSON.parse (jsq " [1, -2.5e1, 'aA\n', true, null, {} ] ")
  = Some (JArr [JNum (inject_Z 1); JNum (Qopp (inject_Z 25));
                JStr [97; 65; 10]; JBool true; JNull; JObj []]).
Proof. vm_compute. reflexivity. Qed.

(** The decoder drops a leading byte order mark, replaces an invalid
    byte by U+FFFD and yields a surrogate pair for a four-byte sequence,
    also when the sequence is cut between two calls. *)
Example decode_bom :
  snd (decode new_TextDecoder [xef; xbb; xbf; x61]) = js "a".
Proof. vm_compute. reflexivity. Qed.

Example decode_invalid :
  snd (decode new_TextDecoder [x61; xff; xc3; x62]) = [97; 65533; 65533; 98].
Proof. vm_compute. reflexivity. Qed.

Example decode_four_bytes :
  decode new_TextDecoder [xf0; x9f] = (mk_decoder (mk_utf8 31 1 3 128 191) false, [])
  /\ snd (decode (mk_decoder (mk_utf8 31 1 3 128 191) false) [x98; x80])
     = [55357; 56832].
Proof. vm_compute. split; reflexivity. Qed.

(** Lines ended by CR LF: the carriage return stays at the end of the
    line, where [trim] and [JSON.parse] ignore it. *)
Example scenario_crlf :
  read_loop JSON.parse new_TextDecoder []
    [bytesq frame_Hel ++ [x0d; x0a] ++ bytes sentinel_line ++ [x0d; x0a]] Done
  = ([JStr (js "Hel")], Resolved).
Proof. vm_compute. reflexivity. Qed.

(** The scenario of the specification: a frame split across two chunks,
    then the sentinel. *)
Example scenario_split_frame :
  read_loop JSON.parse new_TextDecoder []
    [ bytesq frame_Hel ++ nl ++ bytes "da";
      skipn 2 (bytesq frame_lo) ++ nl ++ bytes sentinel_line ++ nl ] Done
  = ([JStr (js "Hel"); JStr (js "lo")], Resolved).
Proof. vm_compute. reflexivity. Qed.

(** A two-byte character cut between two chunks is decoded once the
    second byte arrives. *)
Example scenario_split_character :
  read_loop JSON.parse new_TextDecoder []
    [ bytesq "data: {'choices':[{'delta':{'content':'" ++ [xc3];
      [xa9] ++ bytesq "'}}]}" ++ nl ] Done
  = ([JStr [233]], Resolved).
Proof. vm_compute. reflexivity. Qed.

(** C3 as stated fails: a well-formed frame after the sentinel line, and
    a well-formed frame that ends the stream without a line feed, are
    among the frames fed to the decoder, and their deltas are not
    emitted. *)
Lemma all_frames_counterexample :
  (fst (read_loop JSON.parse new_TextDecoder [] stream_after_sentinel Done) = []
   /\ spec_all_deltas JSON.parse (decoded_text stream_after_sentinel)
      = [JStr (js "lo")])
  /\ (fst (read_loop JSON.parse new_TextDecoder [] stream_unterminated Done)
      = [JStr (js "Hel")]
      /\ spec_all_deltas JSON.parse (decoded_text stream_unterminated)
         = [JStr (js "Hel"); JStr (js "lo")]).
Proof. vm_compute. repeat split. Qed.

Lemma streamChat_deltas_chunk_invariant_witness :
  read_loop JSON.parse new_TextDecoder []
    [firstn 50 stream_whole; skipn 50 stream_whole] Done
  = read_loop JSON.parse new_TextDecoder [] [stream_whole] Done.
Proof.
  apply (proj2 (streamChat_deltas_chunk_invariant JSON.parse [stream_whole] Done)).
  vm_compute. reflexivity.
Defined.

(** Both ways of cutting that stream deliver the two deltas and
    resolve. *)
Example stream_whole_run :
  read_loop JSON.parse new_TextDecoder []
    [firstn 50 stream_whole; skipn 50 stream_whole] Done
  = ([JStr (js "Hel"); JStr (js "lo")], Resolved).
Proof. vm_compute. reflexivity. Qed.

Lemma sentinel_terminates_witness :
  read_loop JSON.parse new_TextDecoder []
    [bytesq frame_Hel ++ nl ++ bytes sentinel_line ++ nl; bytesq frame_lo ++ nl]
    (ReadRejects (js "connection lost"))
  = ([JStr (js "Hel")], Resolved).
Proof.
  apply (sentinel_terminates JSON.parse _ _
           [jsq frame_Hel] (js sentinel_line) [jsq frame_lo]).
  - vm_compute. reflexivity.
  - vm_compute. reflexivity.
Defined.

Lemma frame_validity_witness :
  for_lines JSON.parse [jsq frame_Hel; js frame_malformed; jsq frame_lo]
  = for_lines JSON.parse [jsq frame_Hel; jsq frame_lo]
  /\ for_lines JSON.parse [jsq frame_Hel; js "  "; jsq frame_lo]
     = for_lines JSON.parse [jsq frame_Hel; jsq frame_lo]
  /\ for_lines JSON.parse [jsq frame_Hel; js ": keep-alive"; jsq frame_lo]
     = for_lines JSON.parse [jsq frame_Hel; jsq frame_lo].
Proof.
  split; [|split].
  - apply (proj2 (frame_validity JSON.parse) [jsq frame_Hel] (js frame_malformed)
             [jsq frame_lo]).
    right. exists (js "{not json"). split; vm_compute; reflexivity.
  - apply (proj2 (frame_validity JSON.parse) [jsq frame_Hel] (js "  ")
             [jsq frame_lo]).
    left. split; [vm_compute; discriminate | left; vm_compute; reflexivity].
  - apply (proj2 (frame_validity JSON.parse) [jsq frame_Hel] (js ": keep-alive")
             [jsq frame_lo]).
    left. split; [vm_compute; discriminate | right; vm_compute; reflexivity].
Defined.

(** C5 as stated fails in both directions: a line that begins with
    [data: ] only after trimming is discarded without any attempt, and
    the line [data: ] followed by nothing, whose trimmed form does not
    begin with the prefix, is handed to [JSON.parse]. *)
Lemma frame_validity_counterexample :
  (spec_valid_frame (jsq frame_indented) = true
   /\ classify (jsq frame_indented) = Other
   /\ read_loop JSON.parse new_TextDecoder [] [bytesq frame_indented ++ nl] Done
      = ([], Resolved))
  /\ (spec_valid_frame (js "data: ") = false
      /\ classify (js "data: ") = Frame []).
Proof. vm_compute. repeat split. Qed.

Lemma unterminated_tail_dropped_witness :
  read_loop JSON.parse new_TextDecoder []
    [bytesq frame_Hel ++ nl ++ bytes "da"; skipn 2 (bytesq frame_lo)] Done
  = read_loop JSON.parse new_TextDecoder [] [bytesq frame_Hel ++ nl] Done.
Proof.
  apply (unterminated_tail_dropped JSON.parse _ _ (bytesq frame_lo)).
  - apply not_in_x0a. vm_compute. reflexivity.
  - vm_compute. reflexivity.
Defined.

(** The run of that stream: the complete, well-formed last frame is not
    emitted. *)
Example unterminated_frame_not_emitted :
  read_loop JSON.parse new_TextDecoder []
    [bytesq frame_Hel ++ nl ++ bytes "da"; skipn 2 (bytesq frame_lo)] Done
  = ([JStr (js "Hel")], Resolved).
Proof. vm_compute. reflexivity. Qed.

(** ** The conversation store *)

Lemma last_message_app (front : list Message.t) (m : Message.t) :
  last_message (front ++ [m]) = Some m.
Proof.
  induction front as [|a front IH]; [reflexivity|].
  simpl. rewrite IH. destruct (front ++ [m]) eqn:E; [|reflexivity].
  now destruct front.
Qed.

Lemma set_last_app (f : Message.t -> Message.t) (front : list Message.t)
    (m : Message.t) :
  set_last f (front ++ [m]) = front ++ [f m].
Proof.
  induction front as [|a front IH]; [reflexivity|].
  simpl. rewrite IH. destruct (front ++ [m]) eqn:E; [|reflexivity].
  now destruct front.
Qed.

Lemma with_messages_same (s : ChatSession.t) :
  ChatSession.with_messages s (ChatSession.messages s) = s.
Proof. now destruct s. Qed.

Lemma begin_view (sid : jsstring) (updated : list Message.t)
    (content : jsstring) (prev : sessions_state) :
  add_placeholder sid updated (optimistic_update sid updated content prev)
  = after_exchange sid updated content [placeholder] prev.
Proof.
  unfold add_placeholder, optimistic_update, after_exchange.
  rewrite map_map. apply map_ext. intros s.
  destruct (str_eqb (ChatSession.id s) sid) eqn:E; simpl; rewrite E; reflexivity.
Qed.

Lemma merge_view (sid : jsstring) (updated : list Message.t)
    (content c text : jsstring) (prev : sessions_state) :
  merge_content sid text
    (after_exchange sid updated content [Message.mk assistant c None] prev)
  = Some (after_exchange sid updated content
            [Message.mk assistant text None] prev).
Proof.
  unfold merge_content, after_exchange.
  induction prev as [|s prev IH]; [reflexivity|].
  cbn [map map_throwing]. rewrite IH.
  destruct (str_eqb (ChatSession.id s) sid) eqn:E.
  - unfold merge_session. cbn [ChatSession.id ChatSession.messages].
    rewrite E. cbn [negb]. rewrite last_message_app. cbn [Message.role role_eqb].
    rewrite set_last_app. reflexivity.
  - unfold merge_session. rewrite E. reflexivity.
Qed.

Lemma error_view (sid : jsstring) (updated : list Message.t)
    (content c : jsstring) (err : Message.t) (prev : sessions_state) :
  error_update sid err
    (after_exchange sid updated content [Message.mk assistant c None] prev)
  = after_exchange sid updated content
      (match c with
       | [] => [err]
       | _ :: _ => [Message.mk assistant c None; err]
       end) prev.
Proof.
  unfold error_update, after_exchange. rewrite map_map. apply map_ext.
  intros s. destruct (str_eqb (ChatSession.id s) sid) eqn:E.
  - cbn [ChatSession.id ChatSession.messages]. rewrite E. cbn [negb].
    rewrite last_message_app. cbn [Message.role Message.content role_eqb andb].
    destruct c as [|u c]; cbn [str_eqb].
    + rewrite set_last_app. reflexivity.
    + unfold ChatSession.with_messages. cbn. now rewrite <- app_assoc.
  - rewrite E. reflexivity.
Qed.

Lemma render_app (x : exchange) (q1 q2 : list updater) (prev : sessions_state) :
  render x (q1 ++ q2) prev = and_then (render x q1 prev) (render x q2).
Proof.
  revert prev; induction q1 as [|u q1 IH]; intros prev; [reflexivity|].
  cbn [app render]. destruct (invoke x u prev); [apply IH | reflexivity].
Qed.

(** Merge updaters invoked at the same moment all write the text
    accumulated at that moment. *)
Lemma render_merges (x : exchange) (updated : list Message.t)
    (content : jsstring) (prev : sessions_state) (n : nat) :
  forall c : jsstring,
    render x (repeat MergeUpdater n)
      (after_exchange (sessionIdForRequest x) updated content
         [Message.mk assistant c None] prev)
    = Some (after_exchange (sessionIdForRequest x) updated content
              [Message.mk assistant
                 (match n with O => c | S _ => aiContent x end) None] prev).
Proof.
  induction n as [|n IH]; intros c; [reflexivity|].
  cbn [repeat render invoke]. rewrite merge_view, IH. now destruct n.
Qed.

Section ExchangeProperties.

Variable interval : Z.

Lemma on_chunk_session (x : exchange) (chunk : jsstring) (now : Z) :
  sessionIdForRequest (fst (on_chunk interval x chunk now))
  = sessionIdForRequest x
  /\ aiContent (fst (on_chunk interval x chunk now)) = aiContent x ++ chunk.
Proof.
  unfold on_chunk. destruct (now - lastUpdate x >? interval)%Z; now split.
Qed.

Lemma after_steps_session (steps : list step) :
  forall x,
    sessionIdForRequest (after_steps interval x steps) = sessionIdForRequest x
    /\ aiContent (after_steps interval x steps)
       = aiContent x ++ concat (deltas steps).
Proof.
  induction steps as [|[chunk now|] rest IH]; intros x; cbn [after_steps deltas].
  - now rewrite app_nil_r.
  - destruct (IH (fst (on_chunk interval x chunk now))) as [-> ->].
    destruct (on_chunk_session x chunk now) as [-> ->].
    cbn [concat]. now rewrite app_assoc.
  - apply IH.
Qed.

(** The steps of an exchange keep the state in the shape the exchange
    gave it: only the content of the placeholder changes, and the queue
    holds merge updaters only. *)
Lemma deliver_view (updated : list Message.t) (content : jsstring)
    (prev : sessions_state) (steps : list step) :
  forall (x : exchange) (n : nat) (c : jsstring),
  exists (n' : nat) (c' : jsstring),
    deliver interval x (repeat MergeUpdater n) steps
      (after_exchange (sessionIdForRequest x) updated content
         [Message.mk assistant c None] prev)
    = Some (after_steps interval x steps, repeat MergeUpdater n',
            after_exchange (sessionIdForRequest x) updated content
              [Message.mk assistant c' None] prev)
    /\ match n' with
       | O => c'
       | S _ => aiContent (after_steps interval x steps)
       end
       = placeholder_text interval x (match n with O => false | S _ => true end)
           steps c.
Proof.
  induction steps as [|[chunk now|] rest IH]; intros x n c.
  - exists n, c. split; [reflexivity|]. now destruct n.
  - cbn [deliver after_steps placeholder_text].
    destruct (on_chunk_session x chunk now) as [Hsid _].
    destruct (on_chunk interval x chunk now) as [x' publish]. cbn [fst] in *.
    rewrite <- Hsid.
    destruct publish.
    + rewrite <- repeat_cons. change (MergeUpdater :: repeat MergeUpdater n)
        with (repeat MergeUpdater (S n)).
      destruct (IH x' (S n) c) as (n' & c' & Hd & Hp).
      exists n', c'. split; [exact Hd|]. rewrite Hp. now destruct n.
    + destruct (IH x' n c) as (n' & c' & Hd & Hp).
      exists n', c'. split; [exact Hd|]. rewrite Hp. now destruct n.
  - cbn [deliver after_steps placeholder_text]. rewrite render_merges.
    destruct (IH x O (match n with O => c | S _ => aiContent x end))
      as (n' & c' & Hd & Hp).
    exists n', c'. split; [exact Hd|]. rewrite Hp. now destruct n.
Qed.

End ExchangeProperties.

(** ** One exchange from start to end *)

Section ExchangeClaims.

Variable interval : Z.
Variables sessions prev : sessions_state.
Variable sid : jsstring.
Variable session : ChatSession.t.
Variable content : jsstring.
Variable attachments : list Attachment.t.
Variable steps : list step.

Hypothesis sid_not_empty : sid <> [].
Hypothesis session_found :
  find (fun s => str_eqb (ChatSession.id s) sid) sessions = Some session.

Let updated : list Message.t :=
  ChatSession.messages session ++ [Message.mk user content (Some attachments)].

Let started : exchange := mk_exchange sid updated [] 0%Z.

Lemma begin_exchange_found :
  begin_exchange sessions (Some sid) content attachments prev
  = Some (started, after_exchange sid updated content [placeholder] prev).
Proof.
  unfold begin_exchange. destruct sid as [|u rest] eqn:E; [congruence|].
  rewrite session_found, begin_view. reflexivity.
Qed.

(** The run up to the moment [streamChat] settles. *)
Lemma deliver_started :
  exists (n : nat) (c : jsstring),
    deliver interval started [] steps
      (after_exchange sid updated content [placeholder] prev)
    = Some (after_steps interval started steps, repeat MergeUpdater n,
            after_exchange sid updated content
              [Message.mk assistant c None] prev)
    /\ match n with
       | O => c
       | S _ => aiContent (after_steps interval started steps)
       end
       = placeholder_text interval started false steps [].
Proof.
  exact (deliver_view interval updated content prev steps started O []).
Qed.

Lemma handleSendMessage_resolved :
  handleSendMessage_at interval sessions (Some sid) content attachments
    steps Resolved prev
  = Some (after_exchange sid updated content
            [Message.mk assistant (concat (deltas steps)) None] prev).
Proof.
  unfold handleSendMessage_at. rewrite begin_exchange_found.
  destruct deliver_started as (n & c & -> & _).
  cbn [final_updater]. rewrite <- repeat_cons.
  change (MergeUpdater :: repeat MergeUpdater n) with (repeat MergeUpdater (S n)).
  destruct (after_steps_session interval steps started) as [Hsid Hai].
  pose proof (render_merges (after_steps interval started steps) updated content
                prev (S n) c) as Hr.
  rewrite Hsid, Hai in Hr. exact Hr.
Qed.

Lemma handleSendMessage_rejected (message : jsstring) :
  handleSendMessage_at interval sessions (Some sid) content attachments
    steps (Rejected message) prev
  = Some (after_exchange sid updated content
            (match placeholder_text interval started false steps [] with
             | [] => [errorMsg_of message]
             | partial =>
                 [Message.mk assistant partial None; errorMsg_of message]
             end) prev).
Proof.
  unfold handleSendMessage_at. rewrite begin_exchange_found.
  destruct deliver_started as (n & c & -> & <-).
  cbn [final_updater]. rewrite render_app.
  destruct (after_steps_session interval steps started) as [Hsid _].
  pose proof (render_merges (after_steps interval started steps) updated content
                prev n c) as Hr.
  rewrite Hsid in Hr. cbn [sessionIdForRequest started] in Hr. rewrite Hr.
  cbn [and_then render invoke]. rewrite Hsid.
  cbn [sessionIdForRequest started]. rewrite error_view.
  destruct n; [destruct c | destruct (aiContent _)]; reflexivity.
Qed.

(** C2.  Whatever the throttle interval, whatever the clock readings of
    the [onChunk] calls and whenever React processes the queued
    updaters, an exchange whose stream resolves leaves the session with
    the placeholder holding the concatenation of all the deltas, and an
    exchange whose stream rejects leaves the session with the error
    message as its last message: the update at the end of the stream is
    made unconditionally. *)
Theorem final_flush :
  handleSendMessage_at interval sessions (Some sid) content attachments
    steps Resolved prev
  = Some (after_exchange sid updated content
            [Message.mk assistant (concat (deltas steps)) None] prev)
  /\ (forall message : jsstring, exists front : list Message.t,
         handleSendMessage_at interval sessions (Some sid) content attachments
           steps (Rejected message) prev
         = Some (after_exchange sid updated content
                   (front ++ [errorMsg_of message]) prev)).
Proof.
  split; [apply handleSendMessage_resolved|].
  intros message. rewrite handleSendMessage_rejected.
  destruct (placeholder_text interval started false steps []) as [|u partial].
  - now exists [].
  - now exists [Message.mk assistant (u :: partial) None].
Qed.

(** C7, amended.  In the state an exchange leaves, however its stream
    went, a session with the identifier of the request has the first 30
    code units of the raw, untrimmed message text as its title ([New
    Chat] when the text is empty) if it had no message before, and its
    previous title otherwise; the titles do not depend on the deltas or
    on the outcome. *)
Theorem title_derivation (r : settled) :
  option_map (map ChatSession.title)
    (handleSendMessage_at interval sessions (Some sid) content attachments
       steps r prev)
  = Some (map (fun s =>
                 if str_eqb (ChatSession.id s) sid then
                   if Nat.eqb (List.length (ChatSession.messages s)) 0
                   then match content with
                        | [] => js "New Chat"
                        | _ :: _ => firstn 30 content
                        end
                   else ChatSession.title s
                 else ChatSession.title s)
            prev).
Proof.
  assert (Ht : forall tail,
             map ChatSession.title (after_exchange sid updated content tail prev)
             = map (fun s =>
                      if str_eqb (ChatSession.id s) sid then
                        if Nat.eqb (List.length (ChatSession.messages s)) 0
                        then match content with
                             | [] => js "New Chat"
                             | _ :: _ => firstn 30 content
                             end
                        else ChatSession.title s
                      else ChatSession.title s) prev).
  { intros tail. unfold after_exchange. rewrite map_map. apply map_ext.
    intros s. destruct (str_eqb (ChatSession.id s) sid); [|reflexivity].
    cbn [ChatSession.title].
    destruct (Nat.eqb (List.length (ChatSession.messages s)) 0); [|reflexivity].
    unfold title_of, slice_to. now destruct content. }
  destruct r as [|message].
  - rewrite handleSendMessage_resolved. cbn [option_map]. now rewrite Ht.
  - rewrite handleSendMessage_rejected. cbn [option_map]. now rewrite Ht.
Qed.

End ExchangeClaims.

Lemma streamChat_without_key (JSON_parse : jsstring -> option json)
    (ToString : json -> converted) (config : ApiConfig)
    (env_key : option jsstring) (net : response) :
  apiKey config = [] ->
  env_key = None \/ env_key = Some [] ->
  streamChat JSON_parse ToString config env_key net
  = mk_run false [] (Rejected API_KEY_REQUIRED).
Proof.
  intros Hk He. unfold streamChat. rewrite Hk.
  destruct He as [-> | ->]; reflexivity.
Qed.

(** C8, amended.  When the stream of an exchange rejects, an assistant
    message whose content is [Error: ] followed by the error's message
    (a fixed sentence when that is empty) becomes the last message of
    the session: it takes the place of the placeholder when that is
    still empty, and it is appended after the placeholder, which keeps
    the partial text merged into it, otherwise; in both cases no empty
    placeholder remains.  Without an API key in the settings and
    in the environment [streamChat] rejects before [fetch] is called and
    without any delta, and the placeholder is replaced by the message
    [Error: API key is required. Please set it in Settings.]. *)
Theorem error_finalization (interval : Z) (sessions prev : sessions_state)
    (sid : jsstring) (session : ChatSession.t) (content : jsstring)
    (attachments : list Attachment.t) :
  sid <> [] ->
  find (fun s => str_eqb (ChatSession.id s) sid) sessions = Some session ->
  let updated :=
    ChatSession.messages session ++ [Message.mk user content (Some attachments)] in
  (forall (steps : list step) (message : jsstring),
      handleSendMessage_at interval sessions (Some sid) content attachments
        steps (Rejected message) prev
      = Some (after_exchange sid updated content
                (match placeholder_text interval (mk_exchange sid updated [] 0%Z)
                         false steps [] with
                 | [] => [errorMsg_of message]
                 | partial =>
                     [Message.mk assistant partial None; errorMsg_of message]
                 end) prev))
  /\ (forall message : jsstring,
         Message.role (errorMsg_of message) = assistant
         /\ Message.attachments (errorMsg_of message) = None
         /\ Message.content (errorMsg_of message)
            = js "Error: "
              ++ match message with
                 | [] => js "Sorry, I encountered an error. Please try again."
                 | _ :: _ => message
                 end)
  /\ (forall (JSON_parse : jsstring -> option json) (ToString : json -> converted)
             (config : ApiConfig) (env_key : option jsstring) (net : response),
         apiKey config = [] ->
         env_key = None \/ env_key = Some [] ->
         streamChat JSON_parse ToString config env_key net
         = mk_run false [] (Rejected API_KEY_REQUIRED))
  /\ handleSendMessage_at interval sessions (Some sid) content attachments
       [] (Rejected API_KEY_REQUIRED) prev
     = Some (after_exchange sid updated content
               [Message.mk assistant
                  (js "Error: API key is required. Please set it in Settings.")
                  None] prev).
Proof.
  intros Hsid Hfound updated. split; [|split; [|split]].
  - intros steps message.
    apply (handleSendMessage_rejected interval sessions prev sid session
             content attachments steps Hsid Hfound).
  - intros message. repeat split.
  - apply streamChat_without_key.
  - apply (handleSendMessage_rejected interval sessions prev sid session
             content attachments [] Hsid Hfound).
Qed.

(** ** The throttle *)

(** C6, amended.  On each delta the callback appends the delta to the
    accumulated text; it passes the merge updater to [setSessions] and
    sets [lastUpdate] to [now] exactly when [now - lastUpdate] is
    greater than 100 ms, and otherwise keeps [lastUpdate] and queues
    nothing, so that the [sessions] state stays as it is. *)
Theorem throttle_step (x : exchange) (chunk : jsstring) (now : Z) :
  let ai := aiContent x ++ chunk in
  ((now - lastUpdate x > 100)%Z ->
   on_chunk THROTTLE_MS x chunk now
   = (mk_exchange (sessionIdForRequest x) (updatedMessages x) ai now, true))
  /\ ((now - lastUpdate x <= 100)%Z ->
      on_chunk THROTTLE_MS x chunk now
      = (mk_exchange (sessionIdForRequest x) (updatedMessages x) ai
           (lastUpdate x), false)
      /\ forall prev : sessions_state,
          deliver_chunk THROTTLE_MS x chunk now prev
          = Some (mk_exchange (sessionIdForRequest x) (updatedMessages x) ai
                    (lastUpdate x), prev)).
Proof.
  cbv zeta. unfold deliver_chunk. cbn [deliver]. unfold on_chunk, THROTTLE_MS.
  split; intros H.
  - destruct (Z.gtb_spec (now - lastUpdate x) 100); [reflexivity | lia].
  - destruct (Z.gtb_spec (now - lastUpdate x) 100); [lia | now split].
Qed.

Lemma throttle_step_witness :
  on_chunk THROTTLE_MS exchange_Hel (js "lo") 1700000000101%Z
  = (mk_exchange (js "s1") [] (js "Hello") 1700000000101%Z, true)
  /\ on_chunk THROTTLE_MS exchange_Hel (js "lo") 1700000000100%Z
     = (mk_exchange (js "s1") [] (js "Hello") 1700000000000%Z, false).
Proof.
  split.
  - apply (proj1 (throttle_step exchange_Hel (js "lo") 1700000000101%Z)).
    vm_compute. reflexivity.
  - apply (proj2 (throttle_step exchange_Hel (js "lo") 1700000000100%Z)).
    vm_compute. discriminate.
Defined.

(** C6 as stated fails at the boundary: a delta that arrives exactly
    100 ms after the last publication is not published. *)
Lemma throttle_step_counterexample :
  lastUpdate exchange_Hel = 1700000000000%Z
  /\ spec_publishes (lastUpdate exchange_Hel) 1700000000100%Z = true
  /\ snd (on_chunk THROTTLE_MS exchange_Hel (js "lo") 1700000000100%Z) = false.
Proof. vm_compute. repeat split. Qed.

(** ** The merge and its guard *)

(** C1, amended.  The updater of a merge is guarded by the session
    identifier alone: a session with another identifier is returned
    unchanged, a merge whose identifier matches no session leaves the
    state as it is, and in a session with the identifier of the request
    the content of the last message is replaced whenever that message
    has the assistant role, whichever exchange put it there.  The chat
    input does not call [onSend] while it is disabled, which is the case
    while an exchange is loading. *)
Theorem merge_guard (sid text : jsstring) :
  (forall s : ChatSession.t,
      ChatSession.id s <> sid -> merge_session sid text s = Some s)
  /\ (forall (s : ChatSession.t) (front : list Message.t) (m : Message.t),
         ChatSession.id s = sid ->
         ChatSession.messages s = front ++ [m] ->
         merge_session sid text s
         = Some (if role_eqb (Message.role m) assistant
                 then ChatSession.with_messages s
                        (front ++ [Message.with_content m text])
                 else s))
  /\ (forall prev : sessions_state,
         (forall s, In s prev -> ChatSession.id s <> sid) ->
         merge_content sid text prev = Some prev)
  /\ (forall (input : jsstring) (attachments : list Attachment.t)
             (isProcessing : bool),
         handleSubmit input attachments true isProcessing = None).
Proof.
  assert (Hother : forall s, ChatSession.id s <> sid ->
                             merge_session sid text s = Some s).
  { intros s Hs. unfold merge_session.
    apply str_eqb_neq in Hs. now rewrite Hs. }
  split; [exact Hother|]. split; [|split].
  - intros s front m Hid Hm. unfold merge_session.
    rewrite Hid, str_eqb_refl, Hm, last_message_app. cbn [negb].
    destruct (role_eqb (Message.role m) assistant).
    + now rewrite set_last_app.
    + now rewrite <- Hm, with_messages_same.
  - intros prev Hprev. unfold merge_content.
    induction prev as [|s prev IH]; [reflexivity|].
    cbn [map_throwing]. rewrite Hother by (apply Hprev; now left).
    rewrite IH; [reflexivity|]. intros s' Hin. apply Hprev. now right.
  - intros input attachments isProcessing. unfold handleSubmit.
    now rewrite orb_true_r.
Qed.

Lemma merge_guard_witness :
  merge_session (js "s1") (js "late text") session_with_attachments
  = Some session_with_attachments
  /\ merge_session (js "s2") (js "late text") session_with_attachments
     = Some (ChatSession.mk (js "s2") None (js "Files")
               [Message.mk user (js "see attached") (Some [photo; notes]);
                Message.mk assistant (js "late text") None]
               0%Z)
  /\ merge_content (js "s1") (js "late text") [session_with_attachments]
     = Some [session_with_attachments].
Proof.
  split; [|split].
  - apply (proj1 (merge_guard (js "s1") (js "late text"))).
    vm_compute. discriminate.
  - apply (proj1 (proj2 (merge_guard (js "s2") (js "late text")))
             session_with_attachments
             [Message.mk user (js "see attached") (Some [photo; notes])]
             (Message.mk assistant (js "ok") None)).
    + reflexivity.
    + reflexivity.
  - apply (proj1 (proj2 (proj2 (merge_guard (js "s1") (js "late text"))))).
    intros s [<- | []]. vm_compute. discriminate.
Defined.

(** C1 as stated fails: exchange B was started on the session while
    exchange A was delivering deltas, B finished with the reply [B1],
    and the late delta [A2] of A was merged all the same; the final
    state holds the text of A in the placeholder of B. *)
Lemma superseded_exchange_counterexample :
  superseded_exchange_trace
  = Some [ChatSession.mk (js "s1") None (js "first question")
            [Message.mk user (js "first question") (Some []);
             Message.mk assistant (js "A1") None;
             Message.mk user (js "second question") (Some []);
             Message.mk assistant (js "A1A2") None]
            0%Z].
Proof. vm_compute. reflexivity. Qed.

(** ** The storage filter *)

Lemma filter_twice {A : Type} (f : A -> bool) (l : list A) :
  filter f (filter f l) = filter f l.
Proof.
  induction l as [|a l IH]; [reflexivity|].
  simpl. destruct (f a) eqn:E; simpl; rewrite ?E, IH; reflexivity.
Qed.

(** C9.  Filtering the already filtered sessions changes nothing; no
    attachment of a filtered message is an image; and every document
    attachment of a message, with its content, is an attachment of the
    corresponding filtered message, whose role and text are those of
    the original. *)
Theorem storage_filter (sessions : sessions_state) :
  getSessionsForStorage (getSessionsForStorage sessions)
  = getSessionsForStorage sessions
  /\ (forall (s : ChatSession.t) (m : Message.t) (atts : list Attachment.t)
             (a : Attachment.t),
         In s (getSessionsForStorage sessions) ->
         In m (ChatSession.messages s) ->
         Message.attachments m = Some atts ->
         In a atts ->
         Attachment.type a = file)
  /\ (forall (s : ChatSession.t) (m : Message.t) (atts : list Attachment.t)
             (a : Attachment.t),
         In s sessions ->
         In m (ChatSession.messages s) ->
         Message.attachments m = Some atts ->
         In a atts ->
         Attachment.type a = file ->
         exists (s' : ChatSession.t) (m' : Message.t) (atts' : list Attachment.t),
           In s' (getSessionsForStorage sessions)
           /\ ChatSession.id s' = ChatSession.id s
           /\ ChatSession.title s' = ChatSession.title s
           /\ In m' (ChatSession.messages s')
           /\ Message.role m' = Message.role m
           /\ Message.content m' = Message.content m
           /\ Message.attachments m' = Some atts'
           /\ In a atts').
Proof.
  unfold getSessionsForStorage. split; [|split].
  - rewrite map_map. apply map_ext. intros s.
    unfold ChatSession.with_messages. cbn [ChatSession.messages ChatSession.id
      ChatSession.projectId ChatSession.title ChatSession.timestamp].
    f_equal. rewrite map_map. apply map_ext. intros m.
    unfold Message.with_attachments. cbn [Message.attachments Message.role
      Message.content].
    f_equal. destruct (Message.attachments m); [|reflexivity].
    cbn [option_map]. now rewrite filter_twice.
  - intros s m atts a Hs Hm Hatts Ha.
    apply in_map_iff in Hs. destruct Hs as (s0 & <- & _).
    cbn [ChatSession.with_messages ChatSession.messages] in Hm.
    apply in_map_iff in Hm. destruct Hm as (m0 & <- & _).
    cbn [Message.with_attachments Message.attachments] in Hatts.
    destruct (Message.attachments m0) as [atts0|]; [|discriminate].
    cbn [option_map] in Hatts. injection Hatts as <-.
    apply filter_In in Ha. destruct Ha as [_ Ha].
    destruct (Attachment.type a); [discriminate | reflexivity].
  - intros s m atts a Hs Hm Hatts Ha Hfile.
    eexists _, _, _. split; [apply in_map, Hs|].
    cbn [ChatSession.with_messages ChatSession.id ChatSession.title
           ChatSession.messages].
    do 2 (split; [reflexivity|]). split; [apply in_map, Hm|].
    cbn [Message.with_attachments Message.role Message.content
           Message.attachments].
    do 2 (split; [reflexivity|]). rewrite Hatts. split; [reflexivity|].
    apply filter_In. split; [exact Ha|]. now rewrite Hfile.
Qed.

(** ** The exchange on a sample session *)

Lemma final_flush_witness :
  handleSendMessage one_empty_session (Some (js "s1")) (js "Hi AI") []
    [OnChunk (js "Hello") 1700000000000%Z; OnChunk (js " there!") 1700000000001%Z]
    Resolved one_empty_session
  = Some [ChatSession.mk (js "s1") None (js "Hi AI")
            [Message.mk user (js "Hi AI") (Some []);
             Message.mk assistant (js "Hello there!") None]
            0%Z].
Proof.
  refine (proj1 (final_flush THROTTLE_MS one_empty_session one_empty_session
                   (js "s1") (ChatSession.mk (js "s1") None NEW_CHAT [] 0%Z)
                   (js "Hi AI") [] _ _ _)).
  - vm_compute. discriminate.
  - vm_compute. reflexivity.
Defined.

Lemma title_derivation_witness :
  option_map (map ChatSession.title)
    (handleSendMessage one_empty_session (Some (js "s1"))
       (js "Summarise the attached quarterly report, please") []
       [OnChunk (js "Sure") 1700000000000%Z; Render] Resolved one_empty_session)
  = Some [js "Summarise the attached quarter"].
Proof.
  refine (title_derivation THROTTLE_MS one_empty_session one_empty_session
            (js "s1") (ChatSession.mk (js "s1") None NEW_CHAT [] 0%Z)
            _ [] _ _ _ Resolved).
  - vm_compute. discriminate.
  - vm_compute. reflexivity.
Defined.

(** C7 as stated fails: the title is cut from the raw text, leading
    white space included, not from the trimmed text. *)
Lemma title_derivation_counterexample :
  option_map (map ChatSession.title)
    (handleSendMessage one_empty_session (Some (js "s1")) (js "  hi") [] []
       Resolved one_empty_session)
  = Some [js "  hi"]
  /\ spec_title (js "  hi") = js "hi".
Proof. vm_compute. split; reflexivity. Qed.

Lemma error_finalization_witness :
  streamChat JSON.parse ToString_reference (mk_config [] (js "x-ai/grok-4.1-fast"))
    None (Body [stream_whole] Done)
  = mk_run false [] (Rejected API_KEY_REQUIRED)
  /\ handleSendMessage one_empty_session (Some (js "s1")) (js "Hi AI") [] []
       (Rejected API_KEY_REQUIRED) one_empty_session
     = Some [ChatSession.mk (js "s1") None (js "Hi AI")
               [Message.mk user (js "Hi AI") (Some []);
                Message.mk assistant
                  (js "Error: API key is required. Please set it in Settings.")
                  None]
               0%Z].
Proof.
  assert (Hsid : js "s1" <> []) by (vm_compute; discriminate).
  assert (Hfound :
            find (fun s => str_eqb (ChatSession.id s) (js "s1")) one_empty_session
            = Some (ChatSession.mk (js "s1") None NEW_CHAT [] 0%Z))
    by (vm_compute; reflexivity).
  split.
  - apply (proj1 (proj2 (proj2
             (error_finalization THROTTLE_MS one_empty_session one_empty_session
                (js "s1") (ChatSession.mk (js "s1") None NEW_CHAT [] 0%Z)
                (js "Hi AI") [] Hsid Hfound)))).
    + reflexivity.
    + now left.
  - exact (proj2 (proj2 (proj2
             (error_finalization THROTTLE_MS one_empty_session one_empty_session
                (js "s1") (ChatSession.mk (js "s1") None NEW_CHAT [] 0%Z)
                (js "Hi AI") [] Hsid Hfound)))).
Defined.

(** A merge updater that is still queued when a later delta arrives
    writes the text accumulated when React invokes it. *)
Example queued_merge_reads_late :
  handleSendMessage one_empty_session (Some (js "s1")) (js "Hi AI") []
    [OnChunk (js "Hel") 1700000000000%Z; OnChunk (js "lo") 1700000000001%Z;
     Render; OnChunk (js "!") 1700000000002%Z]
    (Rejected (js "network error")) one_empty_session
  = Some [ChatSession.mk (js "s1") None (js "Hi AI")
            [Message.mk user (js "Hi AI") (Some []);
             Message.mk assistant (js "Hello") None;
             Message.mk assistant (js "Error: network error") None]
            0%Z].
Proof. vm_compute. reflexivity. Qed.

(** C8 as stated fails: when a partial text was merged before the stream
    rejected, the placeholder keeps that text and the error is a further
    message after it. *)
Lemma error_finalization_counterexample :
  handleSendMessage one_empty_session (Some (js "s1")) (js "Hi AI") []
    [OnChunk (js "Hel") 1700000000000%Z; Render] (Rejected (js "network error"))
    one_empty_session
  = Some [ChatSession.mk (js "s1") None (js "Hi AI")
            [Message.mk user (js "Hi AI") (Some []);
             Message.mk assistant (js "Hel") None;
             Message.mk assistant (js "Error: network error") None]
            0%Z].
Proof. vm_compute. reflexivity. Qed.

Lemma storage_filter_witness :
  Attachment.type notes = file
  /\ exists (s' : ChatSession.t) (m' : Message.t) (atts' : list Attachment.t),
    In s' (getSessionsForStorage [session_with_attachments])
    /\ ChatSession.id s' = js "s2"
    /\ ChatSession.title s' = js "Files"
    /\ In m' (ChatSession.messages s')
    /\ Message.role m' = user
    /\ Message.content m' = js "see attached"
    /\ Message.attachments m' = Some atts'
    /\ In notes atts'.
Proof.
  split.
  - refine (proj1 (proj2 (storage_filter [session_with_attachments]))
              (ChatSession.mk (js "s2") None (js "Files")
                 [Message.mk user (js "see attached") (Some [notes]);
                  Message.mk assistant (js "ok") None]
                 0%Z)
              (Message.mk user (js "see attached") (Some [notes]))
              [notes] notes _ _ _ _).
    + simpl. now left.
    + simpl. now left.
    + reflexivity.
    + simpl. now left.
  - refine (proj2 (proj2 (storage_filter [session_with_attachments]))
              session_with_attachments
              (Message.mk user (js "see attached") (Some [photo; notes]))
              [photo; notes] notes _ _ _ _ _).
    + simpl. now left.
    + simpl. now left.
    + reflexivity.
    + simpl. now right; left.
    + reflexivity.
Defined.

(** The stored form of the sample session: the image is gone, the
    document is kept. *)
Example storage_filter_sample :
  getSessionsForStorage [session_with_attachments]
  = [ChatSession.mk (js "s2") None (js "Files")
       [Message.mk user (js "see attached") (Some [notes]);
        Message.mk assistant (js "ok") None]
       0%Z].
Proof. reflexivity. Qed.

(** * Further properties *)

(** ** Sessions and projects *)

Lemma find_filter_some {A : Type} (f g : A -> bool) (l : list A) (a : A) :
  find f l = Some a -> g a = true -> exists b, find f (filter g l) = Some b.
Proof.
  intros Hf Hg. apply find_some in Hf. destruct Hf as [Hin Hfa].
  destruct (find f (filter g l)) as [b|] eqn:E; [now exists b|].
  pose proof (find_none _ _ E a) as Hn.
  rewrite Hfa in Hn. discriminate Hn. apply filter_In. now split.
Qed.

(** X1.  After [handleNewChat], with a non-empty identifier from
    [crypto.randomUUID()], the current session is the new, empty one,
    also when an older session has the same identifier; a message sent
    next whose stream resolves leaves that session first in the list,
    titled after the message and holding the user message and the full
    reply. *)
Theorem new_chat_then_send (interval : Z) (uuid : jsstring) (now : Z)
    (prev : sessions_state) (content : jsstring)
    (attachments : list Attachment.t) (steps : list step) :
  uuid <> [] ->
  let sessions := fst (handleNewChat uuid now prev) in
  let current := snd (handleNewChat uuid now prev) in
  getCurrentSession sessions current
  = Some (ChatSession.mk uuid None (js "New Chat") [] now)
  /\ exists rest : sessions_state,
      handleSendMessage_at interval sessions current content attachments
        steps Resolved sessions
      = Some (ChatSession.mk uuid None (title_of content)
                [Message.mk user content (Some attachments);
                 Message.mk assistant (concat (deltas steps)) None]
                now :: rest).
Proof.
  intros Huuid sessions current.
  assert (Hfound : find (fun s => str_eqb (ChatSession.id s) uuid) sessions
                   = Some (ChatSession.mk uuid None (js "New Chat") [] now)).
  { unfold sessions. cbn [handleNewChat fst find ChatSession.id].
    now rewrite str_eqb_refl. }
  split; [exact Hfound|].
  unfold current. cbn [handleNewChat snd].
  rewrite (handleSendMessage_resolved interval sessions sessions uuid _ content
             attachments steps Huuid Hfound).
  unfold sessions. cbn [handleNewChat fst after_exchange map ChatSession.id
                          ChatSession.messages ChatSession.projectId
                          ChatSession.timestamp List.length Nat.eqb app].
  rewrite str_eqb_refl. eexists. reflexivity.
Qed.

(** X2.  If the current identifier names a session of the list, it
    still does after [handleDeleteSession], whichever session is
    deleted, and the list is not left empty; the sessions of the new
    list are the old ones with another identifier than the deleted one,
    or the fresh session. *)
Theorem delete_session_keeps_current (id : jsstring)
    (currentSessionId : option jsstring) (uuid : jsstring) (now : Z)
    (prev : sessions_state) (cur : ChatSession.t) :
  getCurrentSession prev currentSessionId = Some cur ->
  let next := fst (handleDeleteSession id currentSessionId uuid now prev) in
  let current := snd (handleDeleteSession id currentSessionId uuid now prev) in
  next <> []
  /\ (exists s, getCurrentSession next current = Some s)
  /\ (forall s, In s prev -> ChatSession.id s <> id -> In s next)
  /\ (forall s, In s next ->
        (In s prev /\ ChatSession.id s <> id)
        \/ s = ChatSession.mk uuid None (js "New Chat") [] now).
Proof.
  intros Hcur. unfold handleDeleteSession.
  destruct currentSessionId as [c|]; [|discriminate Hcur].
  cbn [getCurrentSession] in Hcur.
  set (updated := filter (fun s => negb (str_eqb (ChatSession.id s) id)) prev).
  assert (Hup : forall s, In s updated <-> In s prev /\ ChatSession.id s <> id).
  { intros s. unfold updated. rewrite filter_In, negb_true_iff, str_eqb_neq.
    tauto. }
  destruct (str_eqb c id) eqn:Ec.
  - destruct updated as [|first rest] eqn:Eu; cbn [fst snd].
    + split; [discriminate|]. split.
      * eexists. cbn [getCurrentSession find ChatSession.id].
        now rewrite str_eqb_refl.
      * split.
        -- intros s Hin Hne. exfalso. now apply (proj2 (Hup s)).
        -- intros s [<- | []]. now right.
    + split; [discriminate|]. split.
      * exists first. cbn [getCurrentSession find]. now rewrite str_eqb_refl.
      * split; [intros s Hin Hne; now apply Hup|].
        intros s Hin. left. now apply Hup.
  - cbn [fst snd]. apply str_eqb_neq in Ec.
    assert (Hkeep : negb (str_eqb (ChatSession.id cur) id) = true).
    { pose proof (find_some _ _ Hcur) as [_ Hid]. apply str_eqb_eq in Hid.
      rewrite Hid. now apply negb_true_iff, str_eqb_neq. }
    destruct (find_filter_some (fun s => str_eqb (ChatSession.id s) c)
                (fun s => negb (str_eqb (ChatSession.id s) id)) prev cur
                Hcur Hkeep) as [b Hb].
    fold updated in Hb. split.
    + intros E. rewrite E in Hb. discriminate Hb.
    + split; [now exists b|]. split; [intros s Hin Hne; now apply Hup|].
      intros s Hin. left. now apply Hup.
Qed.

(** X3.  [handleDeleteProject] deletes no session and changes no
    identifier, title, message or timestamp: the sessions of the project
    lose their project reference, the other sessions are unchanged, no
    session refers to the deleted project afterwards, and exactly the
    projects with that identifier are removed. *)
Theorem delete_project_keeps_sessions (projectId : jsstring)
    (sessions : sessions_state) (projects : list Project.t) :
  let sessions' := fst (handleDeleteProject projectId sessions projects) in
  let projects' := snd (handleDeleteProject projectId sessions projects) in
  map ChatSession.id sessions' = map ChatSession.id sessions
  /\ map ChatSession.title sessions' = map ChatSession.title sessions
  /\ map ChatSession.messages sessions' = map ChatSession.messages sessions
  /\ map ChatSession.timestamp sessions' = map ChatSession.timestamp sessions
  /\ (forall s, In s sessions -> in_project projectId s = false -> In s sessions')
  /\ (forall s, In s sessions' -> in_project projectId s = false)
  /\ (forall p, In p projects' <-> In p projects /\ Project.id p <> projectId).
Proof.
  cbn [handleDeleteProject fst snd]. rewrite !map_map.
  split; [|split; [|split; [|split; [|split; [|split]]]]].
  - apply map_ext. intros s. now destruct (in_project projectId s).
  - apply map_ext. intros s. now destruct (in_project projectId s).
  - apply map_ext. intros s. now destruct (in_project projectId s).
  - apply map_ext. intros s. now destruct (in_project projectId s).
  - intros s Hin Hp. apply in_map_iff. exists s. now rewrite Hp.
  - intros s Hin. apply in_map_iff in Hin. destruct Hin as (s0 & <- & _).
    destruct (in_project projectId s0) eqn:E; [reflexivity | exact E].
  - intros p. rewrite filter_In, negb_true_iff, str_eqb_neq. tauto.
Qed.

(** ** The groups of the sidebar *)

Lemma in_project_eq (projectId : jsstring) (s : ChatSession.t) :
  in_project projectId s = true <-> ChatSession.projectId s = Some projectId.
Proof.
  unfold in_project. destruct (ChatSession.projectId s) as [p|].
  - rewrite str_eqb_eq. split; congruence.
  - split; discriminate.
Qed.

Lemma in_listed (sessions : sessions_state) (projects : list Project.t)
    (s : ChatSession.t) :
  In s (listed sessions projects)
  <-> In s sessions
      /\ (ChatSession.projectId s = None \/ ChatSession.projectId s = Some []
          \/ exists p, In p projects
                       /\ ChatSession.projectId s = Some (Project.id p)).
Proof.
  unfold listed, unorganizedSessions, projectSessions.
  rewrite in_app_iff, filter_In, in_flat_map. split.
  - intros [[Hin H] | (p & Hp & Hin)].
    + split; [exact Hin|].
      destruct (ChatSession.projectId s) as [[|u q]|]; try discriminate; auto.
    + apply filter_In in Hin. destruct Hin as [Hin H].
      split; [exact Hin|]. right; right. exists p.
      now rewrite <- in_project_eq.
  - intros [Hin [H | [H | (p & Hp & H)]]].
    + left. now rewrite H.
    + left. now rewrite H.
    + right. exists p. split; [exact Hp|]. apply filter_In.
      now rewrite in_project_eq.
Qed.

(** X4.  A session that refers, by a non-empty identifier, to a project
    that is not in the project list appears in no group of the sidebar:
    neither among the unorganized sessions nor under any project. *)
Theorem orphan_session_not_listed (sessions : sessions_state)
    (projects : list Project.t) (s : ChatSession.t) (projectId : jsstring) :
  ChatSession.projectId s = Some projectId ->
  projectId <> [] ->
  (forall p, In p projects -> Project.id p <> projectId) ->
  ~ In s (listed sessions projects).
Proof.
  intros Hs Hne Hno Hin. apply in_listed in Hin.
  destruct Hin as [_ [H | [H | (p & Hp & H)]]]; rewrite Hs in H.
  - discriminate H.
  - congruence.
  - injection H as ->. now apply (Hno p).
Qed.

(** X5.  [handleDeleteProject] keeps the sidebar complete: if every
    session is in a group of the sidebar before a project is deleted,
    every session is in a group afterwards, the sessions of the deleted
    project among the unorganized ones. *)
Theorem delete_project_keeps_listed (projectId : jsstring)
    (sessions : sessions_state) (projects : list Project.t) :
  (forall s, In s sessions -> In s (listed sessions projects)) ->
  let sessions' := fst (handleDeleteProject projectId sessions projects) in
  let projects' := snd (handleDeleteProject projectId sessions projects) in
  (forall s, In s sessions' -> In s (listed sessions' projects'))
  /\ (forall s, In s sessions -> in_project projectId s = true ->
        In (without_project s) (unorganizedSessions sessions')).
Proof.
  intros Hall. cbn [handleDeleteProject fst snd]. split.
  - intros s' Hin'. apply in_listed. split; [exact Hin'|].
    apply in_map_iff in Hin'. destruct Hin' as (s & <- & Hin).
    destruct (in_project projectId s) eqn:E; [now left|].
    apply Hall, in_listed in Hin.
    destruct Hin as [_ [H | [H | (p & Hp & H)]]]; auto.
    right; right. exists p. split; [|exact H].
    apply filter_In. split; [exact Hp|].
    apply negb_true_iff, str_eqb_neq. intros Eid.
    rewrite Eid in H. apply in_project_eq in H. congruence.
  - intros s Hin Hp. apply filter_In. split; [|reflexivity].
    apply in_map_iff. exists s. now rewrite Hp.
Qed.

(** ** What an exchange leaves alone *)

Lemma after_exchange_others (sid : jsstring) (updated : list Message.t)
    (content : jsstring) (tail : list Message.t) (prev : sessions_state) :
  Forall2 (fun s s' =>
             ChatSession.id s' = ChatSession.id s
             /\ ChatSession.projectId s' = ChatSession.projectId s
             /\ ChatSession.timestamp s' = ChatSession.timestamp s
             /\ (ChatSession.id s <> sid -> s' = s))
          prev (after_exchange sid updated content tail prev).
Proof.
  unfold after_exchange. induction prev as [|s prev IH]; [constructor|].
  cbn [map]. constructor; [|exact IH].
  destruct (str_eqb (ChatSession.id s) sid) eqn:E.
  - apply str_eqb_eq in E. repeat split; try reflexivity. congruence.
  - repeat split; reflexivity.
Qed.

(** X6.  An exchange, however its stream goes and whenever React
    processes the updaters, keeps the number and the order of the
    sessions and their identifiers, project references and timestamps,
    and leaves every session with another identifier than the one of
    the request exactly as it was. *)
Theorem exchange_keeps_other_sessions (interval : Z)
    (sessions prev : sessions_state) (sid : jsstring) (session : ChatSession.t)
    (content : jsstring) (attachments : list Attachment.t)
    (steps : list step) (r : settled) :
  sid <> [] ->
  find (fun s => str_eqb (ChatSession.id s) sid) sessions = Some session ->
  exists final : sessions_state,
    handleSendMessage_at interval sessions (Some sid) content attachments
      steps r prev = Some final
    /\ Forall2 (fun s s' =>
                  ChatSession.id s' = ChatSession.id s
                  /\ ChatSession.projectId s' = ChatSession.projectId s
                  /\ ChatSession.timestamp s' = ChatSession.timestamp s
                  /\ (ChatSession.id s <> sid -> s' = s))
               prev final.
Proof.
  intros Hsid Hfound. destruct r as [|message].
  - eexists. split.
    + apply (handleSendMessage_resolved interval sessions prev sid session
               content attachments steps Hsid Hfound).
    + apply after_exchange_others.
  - eexists. split.
    + apply (handleSendMessage_rejected interval sessions prev sid session
               content attachments steps Hsid Hfound).
    + apply after_exchange_others.
Qed.

Lemma split_last_message (msgs : list Message.t) (m : Message.t) :
  last_message msgs = Some m -> msgs = removelast msgs ++ [m].
Proof.
  induction msgs as [|a msgs IH]; [discriminate|].
  destruct msgs as [|b msgs].
  - intros H. injection H as ->. reflexivity.
  - intros H. change (removelast (a :: b :: msgs))
      with (a :: removelast (b :: msgs)).
    cbn [app]. f_equal. now apply IH.
Qed.

Lemma set_last_removelast (f : Message.t -> Message.t) (msgs : list Message.t)
    (m : Message.t) :
  last_message msgs = Some m -> set_last f msgs = removelast msgs ++ [f m].
Proof.
  intros H. rewrite (split_last_message msgs m H) at 1. apply set_last_app.
Qed.

Lemma map_throwing_Forall2 {A B : Type} (f : A -> option B) (R : A -> B -> Prop)
    (l : list A) :
  (forall a b, f a = Some b -> R a b) ->
  forall l', map_throwing f l = Some l' -> Forall2 R l l'.
Proof.
  intros HR. induction l as [|a l IH]; intros l' H; cbn [map_throwing] in H.
  - injection H as <-. constructor.
  - destruct (f a) as [b|] eqn:Ea; [|discriminate].
    destruct (map_throwing f l) as [bs|]; [|discriminate].
    injection H as <-. constructor; [now apply HR | now apply IH].
Qed.

(** X7.  No updater an exchange queues while or after streaming removes a
    session, or changes a title or any message but the last one of a
    session: the messages before the last stay as they are, in
    order. *)
Theorem updaters_keep_earlier_messages (x : exchange) (u : updater)
    (prev next : sessions_state) :
  invoke x u prev = Some next ->
  Forall2 (fun s s' =>
             ChatSession.id s' = ChatSession.id s
             /\ ChatSession.title s' = ChatSession.title s
             /\ exists l : list Message.t,
                 ChatSession.messages s'
                 = removelast (ChatSession.messages s) ++ l)
          prev next.
Proof.
  destruct u as [|errorMsg]; cbn [invoke].
  - apply map_throwing_Forall2. intros s s'. unfold merge_session.
    destruct (negb (str_eqb (ChatSession.id s) (sessionIdForRequest x))).
    + intros H. injection H as <-. repeat split.
      destruct (last_message (ChatSession.messages s)) as [m|] eqn:E.
      * exists [m]. now apply split_last_message.
      * exists []. destruct (ChatSession.messages s) as [|a [|b l]];
          [reflexivity | discriminate E | ].
        exfalso. clear -E. revert a b E.
        induction l as [|c l IH]; intros a b E; [discriminate E|].
        now apply (IH b c).
    + destruct (last_message (ChatSession.messages s)) as [m|] eqn:E;
        [|discriminate].
      destruct (role_eqb (Message.role m) assistant); intros H;
        injection H as <-; repeat split; cbn [ChatSession.messages
          ChatSession.with_messages].
      * exists [Message.with_content m (aiContent x)].
        now apply (set_last_removelast
                     (fun m0 => Message.with_content m0 (aiContent x))).
      * exists [m]. now apply split_last_message.
  - intros H. injection H as <-. unfold error_update.
    induction prev as [|s prev IH]; [constructor|].
    cbn [map]. constructor; [|exact IH].
    destruct (negb (str_eqb (ChatSession.id s) (sessionIdForRequest x))).
    + repeat split.
      destruct (last_message (ChatSession.messages s)) as [m|] eqn:E.
      * exists [m]. now apply split_last_message.
      * exists []. destruct (ChatSession.messages s) as [|a [|b l]];
          [reflexivity | discriminate E | ].
        exfalso. clear -E. revert a b E.
        induction l as [|c l IH']; intros a b E; [discriminate E|].
        now apply (IH' b c).
    + destruct (last_message (ChatSession.messages s)) as [m|] eqn:E.
      * destruct (role_eqb (Message.role m) assistant
                  && str_eqb (Message.content m) []);
          repeat split; cbn [ChatSession.messages ChatSession.with_messages].
        -- exists [errorMsg].
           exact (set_last_removelast (fun _ => errorMsg) _ m E).
        -- exists [m; errorMsg].
           rewrite (split_last_message _ m E) at 1. now rewrite <- app_assoc.
      * repeat split. cbn [ChatSession.messages ChatSession.with_messages].
        destruct (ChatSession.messages s) as [|a [|b l]];
          [now exists [errorMsg] | discriminate E | ].
        exfalso. clear -E. revert a b E.
        induction l as [|c l IH']; intros a b E; [discriminate E|].
        now apply (IH' b c).
Qed.

(** ** Writing to local storage *)

Lemma getSessionsForStorage_image_free (sessions : sessions_state) :
  image_free (getSessionsForStorage sessions).
Proof.
  intros s m atts a Hs Hm Hatts Ha. unfold getSessionsForStorage in Hs.
  apply in_map_iff in Hs. destruct Hs as (s0 & <- & _).
  cbn [ChatSession.with_messages ChatSession.messages] in Hm.
  apply in_map_iff in Hm. destruct Hm as (m0 & <- & _).
  cbn [Message.with_attachments Message.attachments] in Hatts.
  destruct (Message.attachments m0) as [atts0|]; [|discriminate].
  cbn [option_map] in Hatts. injection Hatts as <-.
  apply filter_In in Ha. destruct Ha as [_ Ha].
  destruct (Attachment.type a); [discriminate | reflexivity].
Qed.

(** X8.  Whatever the storage answers, the persistence effect hands no
    image attachment to it.  Its first write is the filtered form of all
    the sessions; there is a second write only after the first one
    exceeded the quota, and it holds the filtered form of the current
    session alone. *)
Theorem persist_never_stores_images (setItem : sessions_state -> storage_result)
    (sessions : sessions_state) (currentSessionId : option jsstring) :
  let writes := persist_sessions setItem sessions currentSessionId in
  Forall image_free writes
  /\ nth_error writes 0 = Some (getSessionsForStorage sessions)
  /\ (forall value, nth_error writes 1 = Some value ->
        setItem (getSessionsForStorage sessions) = QuotaExceeded
        /\ exists currentSession,
            getCurrentSession sessions currentSessionId = Some currentSession
            /\ value = getSessionsForStorage [currentSession])
  /\ (List.length writes <= 2)%nat.
Proof.
  cbv zeta. unfold persist_sessions.
  pose proof (getSessionsForStorage_image_free sessions) as Hall.
  assert (Hone :
            Forall image_free [getSessionsForStorage sessions]
            /\ nth_error [getSessionsForStorage sessions] 0
               = Some (getSessionsForStorage sessions)
            /\ (forall value,
                  nth_error [getSessionsForStorage sessions] 1 = Some value ->
                  setItem (getSessionsForStorage sessions) = QuotaExceeded
                  /\ exists currentSession,
                      getCurrentSession sessions currentSessionId
                      = Some currentSession
                      /\ value = getSessionsForStorage [currentSession])
            /\ (List.length [getSessionsForStorage sessions] <= 2)%nat).
  { split; [now repeat constructor|]. split; [reflexivity|].
    split; [intros v H; discriminate H | cbn; lia]. }
  destruct (setItem (getSessionsForStorage sessions)) eqn:Eset;
    [exact Hone | | exact Hone].
  destruct currentSessionId as [c|]; [|exact Hone].
  destruct c as [|u c]; [exact Hone|].
  destruct (getCurrentSession sessions _) as [cs|] eqn:Ecur;
    [|exact Hone].
  split; [|split; [reflexivity | split]].
  - repeat constructor; [exact Hall|]. apply getSessionsForStorage_image_free.
  - intros value H. split; [reflexivity|]. exists cs. split; [reflexivity|].
    cbn in H. now injection H as <-.
  - cbn. lia.
Qed.

(** ** The deltas *)

Lemma frame_delta_truthy (JSON_parse : jsstring -> option json)
    (payload : jsstring) (v : json) :
  frame_delta JSON_parse payload = Some v -> truthy v = true.
Proof.
  unfold frame_delta. destruct (JSON_parse payload) as [j|]; [|discriminate].
  destruct (choices0_delta_content j) as [c|]; [|discriminate].
  destruct (truthy (js_or c (JStr []))) eqn:E; [|discriminate].
  intros H. now injection H as <-.
Qed.

(** X9.  Every argument [streamChat] passes to [onChunk] is truthy, in
    particular never the empty string, whatever the transport does and
    whatever [JSON.parse] returns. *)
Theorem deltas_truthy (JSON_parse : jsstring -> option json)
    (ToString : json -> converted) (config : ApiConfig)
    (env_key : option jsstring) (net : response) :
  Forall (fun v => truthy v = true /\ v <> JStr [])
         (chunks (streamChat JSON_parse ToString config env_key net)).
Proof.
  assert (Hloop : forall reads e,
             Forall (fun v => truthy v = true /\ v <> JStr [])
               (fst (read_loop JSON_parse new_TextDecoder [] reads e))).
  { intros reads e. rewrite streamChat_loop_text. unfold run_text. cbn [fst].
    apply Forall_forall. intros v Hin. apply in_flat_map in Hin.
    destruct Hin as (line & _ & Hin). unfold line_delta in Hin.
    destruct (classify line) as [| |payload|]; try contradiction.
    destruct (frame_delta JSON_parse payload) as [c|] eqn:E; [|contradiction].
    destruct Hin as [<- | []]. apply frame_delta_truthy in E.
    split; [exact E|]. intros ->. discriminate E. }
  unfold streamChat.
  destruct (match apiKey config with [] => env_key | k :: l => Some (k :: l) end)
    as [[|u k]|]; try constructor.
  destruct net as [m|status statusText errorText|m| |reads e]; try constructor.
  specialize (Hloop reads e).
  destruct (read_loop JSON_parse new_TextDecoder [] reads e). exact Hloop.
Qed.

(** ** The request messages *)

Lemma fold_push_parts (atts : list Attachment.t) :
  forall parts : list content_part,
    fold_left (fun parts att => parts ++ [attachment_part att]) atts parts
    = parts ++ map attachment_part atts.
Proof.
  induction atts as [|a atts IH]; intros parts; cbn [fold_left map].
  - now rewrite app_nil_r.
  - rewrite IH, <- app_assoc. reflexivity.
Qed.

Lemma image_parts_of_attachments (atts : list Attachment.t) :
  flat_map (fun p => match p with
                     | ImageUrlPart url => [url]
                     | TextPart _ => []
                     end) (map attachment_part atts)
  = map Attachment.content
      (filter (fun a => match Attachment.type a with
                        | image => true
                        | file => false
                        end) atts).
Proof.
  induction atts as [|a atts IH]; [reflexivity|].
  cbn [map flat_map filter]. rewrite IH. unfold attachment_part.
  destruct (Attachment.type a); reflexivity.
Qed.

Lemma image_urls_of_message (msg : Message.t) :
  image_urls (format_message msg)
  = map Attachment.content
      (filter (fun a => match Attachment.type a with
                        | image => true
                        | file => false
                        end)
              (match Message.attachments msg with
               | Some atts => atts
               | None => []
               end)).
Proof.
  unfold format_message, image_urls.
  destruct (Message.attachments msg) as [[|a atts]|]; cbn [sent_content_of];
    try reflexivity.
  rewrite fold_push_parts, flat_map_app, image_parts_of_attachments.
  now destruct (Message.content msg).
Qed.

(** X10.  A message is sent with the role it has.  Without attachments
    its content is sent as the plain string, also when it is empty; with
    attachments it is sent as parts: the text first, unless it is empty,
    then one part per attachment in their order.  The image parts carry
    exactly the contents of the image attachments, in order. *)
Theorem format_message_parts (msg : Message.t) :
  sent_role (format_message msg) = Message.role msg
  /\ sent_content_of (format_message msg)
     = match Message.attachments msg with
       | None | Some [] => PlainContent (Message.content msg)
       | Some atts =>
           ContentParts
             (match Message.content msg with
              | [] => []
              | _ :: _ => [TextPart (Message.content msg)]
              end ++ map attachment_part atts)
       end
  /\ image_urls (format_message msg)
     = map Attachment.content
         (filter (fun a => match Attachment.type a with
                           | image => true
                           | file => false
                           end)
                 (match Message.attachments msg with
                  | Some atts => atts
                  | None => []
                  end)).
Proof.
  split; [|split; [|apply image_urls_of_message]].
  - unfold format_message.
    now destruct (Message.attachments msg) as [[|a atts]|].
  - unfold format_message.
    destruct (Message.attachments msg) as [[|a atts]|]; cbn [sent_content_of];
      try reflexivity.
    rewrite fold_push_parts. now destruct (Message.content msg).
Qed.

(** X11.  No message of the stored form of the sessions is sent with an
    image part: once the sessions have gone through the storage filter,
    the requests built from them carry no image. *)
Theorem stored_messages_send_no_image (sessions : sessions_state)
    (s : ChatSession.t) (m : Message.t) :
  In s (getSessionsForStorage sessions) ->
  In m (ChatSession.messages s) ->
  image_urls (format_message m) = [].
Proof.
  intros Hs Hm. rewrite image_urls_of_message.
  destruct (Message.attachments m) as [atts|] eqn:Eatts; [|reflexivity].
  assert (Hfile : forall a, In a atts -> Attachment.type a = file).
  { intros a Ha.
    exact (getSessionsForStorage_image_free sessions s m atts a Hs Hm Eatts Ha). }
  clear Eatts. induction atts as [|a atts IH]; [reflexivity|].
  cbn [filter]. rewrite (Hfile a) by now left.
  apply IH. intros b Hb. apply Hfile. now right.
Qed.

(** ** Failures and results of the API calls *)

Section CallProperties.

Variable JSON_parse : jsstring -> option json.
Variable ToString : json -> converted.

Lemma key_missing_stream (config : ApiConfig) (env_key : option jsstring)
    (net : response) :
  fetched (streamChat JSON_parse ToString config env_key net)
  = negb (key_missing config env_key)
  /\ (key_missing config env_key = true ->
      streamChat JSON_parse ToString config env_key net
      = mk_run false [] (Rejected API_KEY_REQUIRED)).
Proof.
  unfold streamChat, key_missing.
  destruct (apiKey config) as [|u k]; [destruct env_key as [[|u k]|]|];
    (split; [|try discriminate; reflexivity]);
    try reflexivity;
    destruct net as [m|status statusText errorText|m| |reads e];
    try reflexivity;
    destruct (read_loop JSON_parse new_TextDecoder [] reads e); reflexivity.
Qed.

(** X12.  With a key, every response that is not ok makes [streamChat]
    call [fetch], never call [onChunk], and reject.  When
    [response.text()] rejects, it rejects with that error.  Otherwise,
    when the conversions of the template literal return, the message
    begins with [API Error (], so that the chat shows
    [Error: API Error (...]; it ends with the status text when the body
    is not JSON, and with [error.message] of the body when that is a
    non-empty string.  When [error.message] is truthy and its
    conversion throws a TypeError, as it does for an object with an own
    [toString], the call rejects with the TypeError instead. *)
Theorem stream_api_error (config : ApiConfig) (env_key : option jsstring)
    (status : N) (statusText errorText shown : jsstring) :
  key_missing config env_key = false ->
  ToString (JNum (inject_Z (Z.of_N status))) = Converts shown ->
  streamChat JSON_parse ToString config env_key (NotOk status statusText errorText)
  = mk_run true []
      (Rejected (thrown_message
                   (api_error_message JSON_parse ToString status statusText
                      errorText)))
  /\ (forall m : jsstring,
         streamChat JSON_parse ToString config env_key (NotOkUnread m)
         = mk_run true [] (Rejected m))
  /\ (forall message : jsstring,
         api_error_message JSON_parse ToString status statusText errorText
         = Converts message ->
         startsWith (js "API Error (") message = true
         /\ Message.content (errorMsg_of message) = js "Error: " ++ message)
  /\ (JSON_parse errorText = None ->
      api_error_message JSON_parse ToString status statusText errorText
      = Converts (js "API Error (" ++ shown ++ js "): " ++ statusText))
  /\ (forall (errorData err : json) (s : jsstring),
         JSON_parse errorText = Some errorData ->
         get_property errorData (js "error") = Some err ->
         get_property err (js "message") = Some (JStr s) ->
         s <> [] ->
         api_error_message JSON_parse ToString status statusText errorText
         = Converts (js "API Error (" ++ shown ++ js "): " ++ s))
  /\ (forall (errorData err v : json) (m : jsstring),
         JSON_parse errorText = Some errorData ->
         get_property errorData (js "error") = Some err ->
         get_property err (js "message") = Some v ->
         truthy v = true ->
         template ToString v = TypeError m ->
         streamChat JSON_parse ToString config env_key
           (NotOk status statusText errorText)
         = mk_run true [] (Rejected m)).
Proof.
  intros Hkey Hshown.
  assert (Hrun : forall net,
             streamChat JSON_parse ToString config env_key net
             = match net with
               | FetchRejects m => mk_run true [] (Rejected m)
               | NotOk status statusText errorText =>
                   mk_run true []
                     (Rejected (thrown_message
                                  (api_error_message JSON_parse ToString status
                                     statusText errorText)))
               | NotOkUnread m => mk_run true [] (Rejected m)
               | NoBody => mk_run true [] (Rejected (js "No response body"))
               | Body reads e =>
                   let '(out, r) := read_loop JSON_parse new_TextDecoder [] reads e in
                   mk_run true out r
               end).
  { intros net. unfold streamChat, key_missing in *.
    destruct (apiKey config) as [|u k]; [|reflexivity].
    destruct env_key as [[|u k]|]; try discriminate Hkey. reflexivity. }
  assert (Hnested : forall errorData err v,
             JSON_parse errorText = Some errorData ->
             get_property errorData (js "error") = Some err ->
             get_property err (js "message") = Some v ->
             truthy v = true ->
             api_error_message JSON_parse ToString status statusText errorText
             = match template ToString v with
               | TypeError m => TypeError m
               | Converts text =>
                   Converts (js "API Error (" ++ shown ++ js "): " ++ text)
               end).
  { intros errorData err v Hp He Hm Hv.
    unfold api_error_message. rewrite Hp, Hshown.
    assert (Hed : errorData <> JNull) by (intros ->; discriminate He).
    assert (Her : err <> JNull) by (intros ->; discriminate Hm).
    assert (Hor : forall b, js_or (Some v) b = v).
    { intros b. unfold js_or. now rewrite Hv. }
    destruct errorData; try congruence; rewrite He;
      (destruct err; try congruence; rewrite Hm, Hor; reflexivity). }
  split; [|split; [|split; [|split; [|split]]]].
  - apply (Hrun (NotOk status statusText errorText)).
  - intros m. apply (Hrun (NotOkUnread m)).
  - intros message. unfold api_error_message. rewrite Hshown.
    match goal with
    | |- match template ToString ?v with _ => _ end = _ -> _ =>
        destruct (template ToString v) as [text|m]
    end; [|discriminate].
    intros H. injection H as <-. split; reflexivity.
  - intros Hp. unfold api_error_message. now rewrite Hp, Hshown.
  - intros errorData err s Hp He Hm Hs.
    rewrite (Hnested errorData err (JStr s) Hp He Hm); [reflexivity|].
    cbn [truthy]. now destruct s.
  - intros errorData err v m Hp He Hm Hv Ht.
    rewrite (Hrun (NotOk status statusText errorText)).
    now rewrite (Hnested errorData err v Hp He Hm Hv), Ht.
Qed.

Lemma js_or_truthy (a : option json) (b : json) :
  truthy b = true -> truthy (js_or a b) = true.
Proof.
  intros Hb. unfold js_or. destruct a as [v|]; [|exact Hb].
  destruct (truthy v) eqn:E; [exact E | exact Hb].
Qed.

Lemma throw_api_error_throws {A : Type} (status : N) (statusText : jsstring)
    (body : option json) (a : A) :
  throw_api_error ToString status statusText body <> Returns a.
Proof.
  unfold throw_api_error.
  destruct (match body with Some d => d | None => JObj [] end);
    try discriminate;
    (destruct (ToString (JNum (inject_Z (Z.of_N status)))); [|discriminate];
     match goal with
     | |- match template ToString ?v with _ => _ end <> _ =>
         destruct (template ToString v); discriminate
     end).
Qed.

(** X13.  [summarizeText] returns only after a successful response whose
    first choice holds a truthy content that parses as JSON, and the
    result it returns is complete: [sec10], [min1] and [fullBreakdown]
    are truthy (the text [Summary unavailable] stands in for a missing
    or falsy field) and [actionPoints] is the array of the reply, or
    the empty array when the reply holds no array there. *)
Theorem summarizeText_result (config : ApiConfig) (env_key : option jsstring)
    (net : http_response) (called : bool) (r : SummaryResult) :
  summarizeText JSON_parse ToString config env_key net = (called, Returns r) ->
  called = true
  /\ truthy (sec10 r) = true
  /\ truthy (min1 r) = true
  /\ truthy (fullBreakdown r) = true
  /\ exists (status : N) (statusText : jsstring) (data content parsed : json),
      net = Response true status statusText (Some data)
      /\ choices0_message_content data = Some (Some content)
      /\ truthy content = true
      /\ (exists text : jsstring,
             template ToString content = Converts text
             /\ JSON_parse text = Some parsed)
      /\ actionPoints r
         = match get_property parsed (js "actionPoints") with
           | Some (JArr items) => items
           | _ => []
           end.
Proof.
  unfold summarizeText.
  destruct (key_missing config env_key); [discriminate|].
  destruct net as [m|ok status statusText body]; [discriminate|].
  destruct ok; cbn [negb].
  2:{ intros H. exfalso. injection H as _ H. revert H. apply throw_api_error_throws. }
  destruct body as [data|]; [|discriminate].
  destruct (choices0_message_content data) as [[content|]|] eqn:Ec;
    try discriminate.
  destruct (truthy content) eqn:Et; cbn [negb]; [|discriminate].
  destruct (template ToString content) as [text|m] eqn:Ex; [|discriminate].
  destruct (JSON_parse text) as [parsed|] eqn:Ep; [|discriminate].
  intros H.
  assert (Hr : called = true
               /\ r = mk_summary
                        (js_or (get_property parsed (js "sec10"))
                           (JStr (js "Summary unavailable")))
                        (js_or (get_property parsed (js "min1"))
                           (JStr (js "Summary unavailable")))
                        (js_or (get_property parsed (js "fullBreakdown"))
                           (JStr (js "Summary unavailable")))
                        (match get_property parsed (js "actionPoints") with
                         | Some (JArr items) => items
                         | _ => []
                         end)).
  { destruct parsed; try discriminate H; injection H as <- <-; now split. }
  destruct Hr as [-> ->]. cbn [sec10 min1 fullBreakdown actionPoints].
  split; [reflexivity|].
  split; [now apply js_or_truthy|]. split; [now apply js_or_truthy|].
  split; [now apply js_or_truthy|].
  exists status, statusText, data, content, parsed.
  split; [reflexivity|]. split; [exact Ec|]. split; [exact Et|].
  split; [now exists text | reflexivity].
Qed.


(** X15.  [summarizeText], [generateReply], [askQuestion] and
    [streamChat] agree on the key: each calls [fetch] exactly when the
    settings or the environment hold a non-empty key, and each rejects
    with [API key is required. Please set it in Settings.] otherwise.
    [sendChat] calls [fetch] in every case. *)
Theorem key_check (config : ApiConfig) (env_key : option jsstring)
    (net : http_response) (stream : response) :
  (key_missing config env_key = true
   <-> apiKey config = [] /\ (env_key = None \/ env_key = Some []))
  /\ fst (summarizeText JSON_parse ToString config env_key net)
     = negb (key_missing config env_key)
  /\ fst (generateReply ToString config env_key net)
     = negb (key_missing config env_key)
  /\ fst (askQuestion ToString config env_key net)
     = negb (key_missing config env_key)
  /\ fetched (streamChat JSON_parse ToString config env_key stream)
     = negb (key_missing config env_key)
  /\ fst (sendChat ToString config env_key net) = true
  /\ (key_missing config env_key = true ->
      snd (summarizeText JSON_parse ToString config env_key net)
      = Throws API_KEY_REQUIRED
      /\ snd (generateReply ToString config env_key net)
         = Throws API_KEY_REQUIRED
      /\ snd (askQuestion ToString config env_key net)
         = Throws API_KEY_REQUIRED
      /\ result (streamChat JSON_parse ToString config env_key stream)
         = Rejected API_KEY_REQUIRED).
Proof.
  destruct (key_missing_stream config env_key stream) as [Hf Hs].
  split; [|split; [|split; [|split; [|split; [exact Hf | split]]]]].
  - unfold key_missing. destruct (apiKey config) as [|u k].
    + destruct env_key as [[|u k]|]; split; auto; try discriminate.
      intros [_ [H|H]]; discriminate H.
    + split; [discriminate | intros [H _]; discriminate H].
  - unfold summarizeText. now destruct (key_missing config env_key).
  - unfold generateReply, reply_or. now destruct (key_missing config env_key).
  - unfold askQuestion, reply_or. now destruct (key_missing config env_key).
  - reflexivity.
  - intros Hk. unfold summarizeText, generateReply, askQuestion, reply_or.
    rewrite Hk, (Hs Hk). now repeat split.
Qed.

End CallProperties.

(** ** The chat input *)

(** X16.  The send button and [handleSubmit] agree: [handleSubmit] calls
    [onSend] exactly when [canSend] holds, and it passes the input as it
    was typed, not trimmed, together with all the attachments. *)
Theorem submit_iff_canSend (input : jsstring) (attachments : list Attachment.t)
    (disabled isProcessing : bool) :
  handleSubmit input attachments disabled isProcessing
  = if canSend input attachments disabled isProcessing
    then Some (input, attachments)
    else None.
Proof.
  unfold handleSubmit, canSend.
  destruct (trim input) as [|u t]; destruct attachments as [|a l];
    destruct disabled; destruct isProcessing; reflexivity.
Qed.

Lemma processFile_type (f : File) (type : AttachmentType) (content : jsstring) :
  processFile f = Some (type, content) ->
  type = (if startsWith (js "image/") (file_type f) then image else file)
  /\ (type = image -> as_data_url f = Some content).
Proof.
  unfold processFile.
  destruct (startsWith (js "image/") (file_type f)).
  - destruct (as_data_url f) as [b|]; [|discriminate].
    intros H. injection H as <- <-. now split.
  - destruct (str_eqb (file_type f) (js "application/pdf"));
      [|destruct (str_eqb (file_type f) DOCX_TYPE)].
    + destruct (as_pdf_text f); [|discriminate].
      intros H. injection H as <- <-. split; [reflexivity | discriminate].
    + destruct (as_docx_text f); [|discriminate].
      intros H. injection H as <- <-. split; [reflexivity | discriminate].
    + destruct (as_text f); [|discriminate].
      intros H. injection H as <- <-. split; [reflexivity | discriminate].
Qed.

Lemma newAttachments_some (uuid : nat -> jsstring) (files : list File) :
  forall (i : nat) (new : list Attachment.t),
    newAttachments uuid i files = Some new ->
    map Attachment.id new = map uuid (seq i (List.length files))
    /\ Forall2 (fun f a =>
                  Attachment.name a = file_name f
                  /\ Attachment.mimeType a = Some (file_type f)
                  /\ processFile f = Some (Attachment.type a, Attachment.content a))
               files new.
Proof.
  induction files as [|f rest IH]; intros i new H; cbn [newAttachments] in H.
  - injection H as <-. split; [reflexivity | constructor].
  - destruct (processFile f) as [[type content]|] eqn:Ef; [|discriminate].
    destruct (newAttachments uuid (S i) rest) as [atts|] eqn:Er; [|discriminate].
    injection H as <-. destruct (IH _ _ Er) as [Hid Hall].
    split.
    + cbn [List.length seq map Attachment.id]. now rewrite Hid.
    + constructor; [|exact Hall]. cbn. now repeat split.
Qed.

Lemma newAttachments_none (uuid : nat -> jsstring) (files : list File) :
  forall i : nat,
    newAttachments uuid i files = None <->
    exists f, In f files /\ processFile f = None.
Proof.
  induction files as [|f rest IH]; intros i; cbn [newAttachments].
  - split; [discriminate | intros [f [[] _]]].
  - destruct (processFile f) as [[type content]|] eqn:Ef.
    + destruct (newAttachments uuid (S i) rest) as [atts|] eqn:Er.
      * split; [discriminate|]. intros [g [[<-|Hin] Hg]]; [congruence|].
        assert (Hn : newAttachments uuid (S i) rest = None)
          by (apply IH; now exists g).
        congruence.
      * split; [|reflexivity]. intros _.
        destruct (proj1 (IH (S i)) Er) as [g [Hin Hg]].
        exists g. split; [now right | exact Hg].
    + split; [|reflexivity]. intros _. exists f. split; [now left | exact Ef].
Qed.

(** X17.  [handleFileSelect] adds all the files or none.  If one reader
    fails, the attachments stay as they were, whatever the other files
    are.  Otherwise one attachment per file is appended, in the order
    of the files, with the name and the MIME type of its file; it is an
    image, holding the data URL of the file, exactly when the MIME type
    begins with [image/]. *)
Theorem file_select_all_or_nothing (uuid : nat -> jsstring) (files : list File)
    (prev : list Attachment.t) :
  ((exists f, In f files /\ processFile f = None) ->
   handleFileSelect uuid files prev = prev)
  /\ ((forall f, In f files -> processFile f <> None) ->
      exists new : list Attachment.t,
        handleFileSelect uuid files prev = prev ++ new
        /\ map Attachment.id new = map uuid (seq 0 (List.length files))
        /\ Forall2 (fun f a =>
                      Attachment.name a = file_name f
                      /\ Attachment.mimeType a = Some (file_type f)
                      /\ (Attachment.type a = image
                          <-> startsWith (js "image/") (file_type f) = true)
                      /\ (Attachment.type a = image ->
                          as_data_url f = Some (Attachment.content a)))
                   files new).
Proof.
  split.
  - intros Hfail. apply (newAttachments_none uuid files 0) in Hfail.
    unfold handleFileSelect. rewrite Hfail. now destruct files.
  - intros Hall.
    destruct (newAttachments uuid 0 files) as [new|] eqn:En.
    2:{ apply newAttachments_none in En. destruct En as [f [Hin Hf]].
        now destruct (Hall f Hin). }
    exists new. destruct (newAttachments_some _ _ _ _ En) as [Hid Hfa].
    split; [|split; [exact Hid|]].
    + unfold handleFileSelect. rewrite En. destruct files; [|reflexivity].
      cbn in En. injection En as <-. now rewrite app_nil_r.
    + eapply Forall2_impl; [|exact Hfa]. cbn beta.
      intros f a (Hn & Hm & Hp). apply processFile_type in Hp.
      destruct Hp as [Ht Hc]. repeat split; try assumption.
      * intros Hi. rewrite Hi in Ht.
        now destruct (startsWith (js "image/") (file_type f)).
      * intros Hs. now rewrite Hs in Ht.
Qed.

Lemma removeAttachment_other (id : jsstring) (l : list Attachment.t) :
  (forall a, In a l -> Attachment.id a <> id) -> removeAttachment id l = l.
Proof.
  unfold removeAttachment. induction l as [|a l IH]; intros H; [reflexivity|].
  cbn [filter].
  assert (Ha : str_eqb (Attachment.id a) id = false).
  { apply not_true_is_false. rewrite str_eqb_eq. apply H. now left. }
  rewrite Ha. cbn [negb]. f_equal. apply IH. intros b Hb. apply H. now right.
Qed.

Lemma removeAttachment_new (uuid : nat -> jsstring) (files : list File) :
  forall (i k : nat) (new : list Attachment.t),
    newAttachments uuid i files = Some new ->
    (k < List.length files)%nat ->
    (forall j, (j < List.length files)%nat -> j <> k -> uuid (i + j)%nat <> uuid (i + k)%nat) ->
    removeAttachment (uuid (i + k)%nat) new = firstn k new ++ skipn (S k) new.
Proof.
  induction files as [|f rest IH]; intros i k new H Hk Hfresh;
    cbn [List.length] in *; [lia|].
  cbn [newAttachments] in H.
  destruct (processFile f) as [[type content]|]; [|discriminate].
  destruct (newAttachments uuid (S i) rest) as [atts|] eqn:Er; [|discriminate].
  injection H as <-. unfold removeAttachment. cbn [filter Attachment.id].
  destruct k as [|k].
  - rewrite Nat.add_0_r.
    assert (E : str_eqb (uuid i) (uuid i) = true) by now apply str_eqb_eq.
    rewrite E. cbn [negb firstn skipn app].
    apply removeAttachment_other. intros a Ha.
    destruct (newAttachments_some _ _ _ _ Er) as [Hid _].
    apply (in_map Attachment.id) in Ha. rewrite Hid in Ha.
    apply in_map_iff in Ha. destruct Ha as [j [<- Hj]].
    apply in_seq in Hj.
    specialize (Hfresh (j - i)%nat). rewrite Nat.add_0_r in Hfresh.
    replace (i + (j - i))%nat with j in Hfresh by lia.
    apply Hfresh; lia.
  - assert (E : str_eqb (uuid i) (uuid (i + S k)%nat) = false).
    { apply not_true_is_false. rewrite str_eqb_eq.
      specialize (Hfresh 0%nat). rewrite Nat.add_0_r in Hfresh.
      apply Hfresh; lia. }
    rewrite E. cbn [negb firstn skipn app]. f_equal.
    replace (i + S k)%nat with (S i + k)%nat by lia.
    apply (IH (S i) k atts Er); [lia|].
    intros j Hj Hne. replace (S i + j)%nat with (i + S j)%nat by lia.
    replace (S i + k)%nat with (i + S k)%nat by lia.
    apply Hfresh; lia.
Qed.

(** X18.  Removing an attachment that [handleFileSelect] has just added
    undoes the addition of that file and of no other, provided the
    identifier [crypto.randomUUID()] gave it is shared by no other
    attachment: the attachments held before stay, and so do those of
    the other files, in their order. *)
Theorem remove_after_select (uuid : nat -> jsstring) (files : list File)
    (prev new : list Attachment.t) (k : nat) :
  newAttachments uuid 0 files = Some new ->
  (k < List.length files)%nat ->
  (forall a, In a prev -> Attachment.id a <> uuid k) ->
  (forall j, (j < List.length files)%nat -> j <> k -> uuid j <> uuid k) ->
  removeAttachment (uuid k) (handleFileSelect uuid files prev)
  = prev ++ firstn k new ++ skipn (S k) new.
Proof.
  intros Hnew Hk Hprev Hfresh.
  unfold handleFileSelect. rewrite Hnew.
  destruct files as [|f rest]; [cbn in Hk; lia|].
  unfold removeAttachment. rewrite filter_app.
  fold (removeAttachment (uuid k) prev). fold (removeAttachment (uuid k) new).
  rewrite (removeAttachment_other _ _ Hprev). f_equal.
  apply (removeAttachment_new uuid (f :: rest) 0 k new Hnew Hk).
  intros j Hj Hne. cbn [Nat.add]. now apply Hfresh.
Qed.

(** ** Round trips of the session and project handlers *)

Lemma filter_other_id {A : Type} (key : A -> jsstring) (id : jsstring)
    (l : list A) :
  (forall a, In a l -> key a <> id) ->
  filter (fun a => negb (str_eqb (key a) id)) l = l.
Proof.
  induction l as [|a l IH]; intros H; [reflexivity|]. cbn [filter].
  assert (Ha : str_eqb (key a) id = false).
  { apply not_true_is_false. rewrite str_eqb_eq. apply H. now left. }
  rewrite Ha. cbn [negb]. f_equal. apply IH. intros b Hb. apply H. now right.
Qed.

(** X19.  Deleting a project right after [handleCreateProject] created
    it, under an identifier no older project has and no session refers
    to, restores the projects and leaves the sessions as they were; the
    new project, added last, holds no session. *)
Theorem create_then_delete_project (name uuid : jsstring) (now : Z)
    (sessions : sessions_state) (projects : list Project.t) :
  (forall p, In p projects -> Project.id p <> uuid) ->
  (forall s, In s sessions -> ChatSession.projectId s <> Some uuid) ->
  handleDeleteProject uuid sessions (handleCreateProject name uuid now projects)
  = (sessions, projects)
  /\ projectSessions sessions uuid = []
  /\ last (handleCreateProject name uuid now projects) (Project.mk uuid name now)
     = Project.mk uuid name now.
Proof.
  intros Hp Hs.
  assert (Hout : forall s, In s sessions -> in_project uuid s = false).
  { intros s Hin. apply not_true_is_false. rewrite in_project_eq.
    now apply Hs. }
  split; [|split].
  - unfold handleDeleteProject, handleCreateProject. f_equal.
    + rewrite <- (map_id sessions) at 2. apply map_ext_in.
      intros s Hin. now rewrite (Hout s Hin).
    + rewrite filter_app, (filter_other_id Project.id uuid projects Hp).
      cbn [filter Project.id]. rewrite str_eqb_refl. cbn [negb].
      apply app_nil_r.
  - unfold projectSessions. clear Hs.
    induction sessions as [|s l IH]; [reflexivity|]. cbn [filter].
    rewrite (Hout s) by now left. apply IH. intros b Hb. apply Hout. now right.
  - unfold handleCreateProject. apply last_last.
Qed.

(** X20.  Deleting the session [handleNewChat] has just created, under
    an identifier no older session has, restores the older sessions and
    makes the first of them current; when there is no older session, a
    fresh empty session takes its place, so the list is never left
    empty. *)
Theorem new_chat_then_delete (uuid : jsstring) (now : Z) (uuid' : jsstring)
    (now' : Z) (prev : sessions_state) :
  (forall s, In s prev -> ChatSession.id s <> uuid) ->
  handleDeleteSession uuid (snd (handleNewChat uuid now prev)) uuid' now'
    (fst (handleNewChat uuid now prev))
  = match prev with
    | [] => ([ChatSession.mk uuid' None (js "New Chat") [] now'], Some uuid')
    | first :: _ => (prev, Some (ChatSession.id first))
    end.
Proof.
  intros Hfresh. unfold handleNewChat, handleDeleteSession. cbn [fst snd].
  cbn [filter ChatSession.id]. rewrite str_eqb_refl. cbn [negb].
  rewrite (filter_other_id ChatSession.id uuid prev Hfresh).
  now destruct prev.
Qed.

(** ** The further properties at sample inputs *)

Lemma new_chat_then_send_witness :
  exists rest : sessions_state,
    handleSendMessage_at THROTTLE_MS
      (fst (handleNewChat (js "n1") 5%Z one_empty_session))
      (snd (handleNewChat (js "n1") 5%Z one_empty_session))
      (js "Hi AI") [] [OnChunk (js "Hello") 1700000000000%Z] Resolved
      (fst (handleNewChat (js "n1") 5%Z one_empty_session))
    = Some (ChatSession.mk (js "n1") None (title_of (js "Hi AI"))
              [Message.mk user (js "Hi AI") (Some []);
               Message.mk assistant
                 (concat (deltas [OnChunk (js "Hello") 1700000000000%Z])) None]
              5%Z :: rest).
Proof.
  refine (proj2 (new_chat_then_send THROTTLE_MS (js "n1") 5%Z one_empty_session
                   (js "Hi AI") [] [OnChunk (js "Hello") 1700000000000%Z] _)).
  vm_compute. discriminate.
Defined.

Lemma delete_session_keeps_current_witness :
  fst (handleDeleteSession (js "s1") (Some (js "s1")) (js "n1") 5%Z
         one_empty_session) <> [].
Proof.
  refine (proj1 (delete_session_keeps_current (js "s1") (Some (js "s1"))
                   (js "n1") 5%Z one_empty_session
                   (ChatSession.mk (js "s1") None NEW_CHAT [] 0%Z) _)).
  vm_compute. reflexivity.
Defined.

Lemma delete_project_keeps_sessions_witness :
  In session_with_attachments
     (fst (handleDeleteProject (js "p1")
             [session_in_work; session_with_attachments] [work])).
Proof.
  refine (proj1 (proj2 (proj2 (proj2 (proj2
            (delete_project_keeps_sessions (js "p1")
               [session_in_work; session_with_attachments] [work])))))
            session_with_attachments _ _).
  - simpl. right. now left.
  - vm_compute. reflexivity.
Defined.

Lemma orphan_session_not_listed_witness :
  ~ In session_orphan (listed [session_orphan; session_in_work] [work]).
Proof.
  refine (orphan_session_not_listed [session_orphan; session_in_work] [work]
            session_orphan (js "p0") _ _ _).
  - reflexivity.
  - vm_compute. discriminate.
  - intros p [<-|[]]. vm_compute. discriminate.
Defined.

Lemma delete_project_keeps_listed_witness :
  In (without_project session_in_work)
     (unorganizedSessions
        (fst (handleDeleteProject (js "p1")
                [session_in_work; session_with_attachments] [work]))).
Proof.
  refine (proj2 (delete_project_keeps_listed (js "p1")
                   [session_in_work; session_with_attachments] [work] _)
            session_in_work _ _).
  - intros s [<-|[<-|[]]]; vm_compute; auto.
  - simpl. now left.
  - vm_compute. reflexivity.
Defined.

Lemma exchange_keeps_other_sessions_witness :
  exists final : sessions_state,
    handleSendMessage_at THROTTLE_MS two_sessions (Some (js "s1")) (js "Hi AI") []
      [OnChunk (js "Hello") 1700000000000%Z; Render] (Rejected (js "Failed to fetch"))
      two_sessions = Some final
    /\ Forall2 (fun s s' =>
                  ChatSession.id s' = ChatSession.id s
                  /\ ChatSession.projectId s' = ChatSession.projectId s
                  /\ ChatSession.timestamp s' = ChatSession.timestamp s
                  /\ (ChatSession.id s <> js "s1" -> s' = s))
               two_sessions final.
Proof.
  refine (exchange_keeps_other_sessions THROTTLE_MS two_sessions two_sessions
            (js "s1") (ChatSession.mk (js "s1") None NEW_CHAT [] 0%Z)
            (js "Hi AI") [] [OnChunk (js "Hello") 1700000000000%Z; Render]
            (Rejected (js "Failed to fetch")) _ _).
  - vm_compute. discriminate.
  - vm_compute. reflexivity.
Defined.

Lemma updaters_keep_earlier_messages_witness :
  Forall2 (fun s s' =>
             ChatSession.id s' = ChatSession.id s
             /\ ChatSession.title s' = ChatSession.title s
             /\ exists l : list Message.t,
                 ChatSession.messages s'
                 = removelast (ChatSession.messages s) ++ l)
          session_streaming session_streamed.
Proof.
  refine (updaters_keep_earlier_messages exchange_Hel MergeUpdater
            session_streaming session_streamed _).
  vm_compute. reflexivity.
Defined.

Lemma persist_never_stores_images_witness :
  quota_always (getSessionsForStorage [session_with_attachments]) = QuotaExceeded
  /\ exists currentSession,
      getCurrentSession [session_with_attachments] (Some (js "s2"))
      = Some currentSession
      /\ getSessionsForStorage [session_with_attachments]
         = getSessionsForStorage [currentSession].
Proof.
  refine (proj1 (proj2 (proj2
            (persist_never_stores_images quota_always [session_with_attachments]
               (Some (js "s2")))))
            (getSessionsForStorage [session_with_attachments]) _).
  vm_compute. reflexivity.
Defined.

Lemma stored_messages_send_no_image_witness :
  image_urls (format_message stored_message) = [].
Proof.
  refine (stored_messages_send_no_image [session_with_attachments]
            stored_session stored_message _ _).
  - vm_compute. left. reflexivity.
  - simpl. now left.
Defined.

Lemma stream_api_error_witness :
  api_error_message JSON.parse ToString_reference 401 (js "Unauthorized")
    (jsq error_body)
  = Converts (js "API Error (" ++ js "401" ++ js "): " ++ js "Invalid API key")
  /\ streamChat JSON.parse ToString_reference config_with_key None
       (NotOk 404 (js "Not Found") (jsq error_body_object))
     = mk_run true [] (Rejected NOT_PRIMITIVE).
Proof.
  split.
  - refine (proj1 (proj2 (proj2 (proj2 (proj2
              (stream_api_error JSON.parse ToString_reference config_with_key
                 None 401 (js "Unauthorized") (jsq error_body) (js "401") _ _)))))
              error_data
              (JObj [(js "message", JStr (js "Invalid API key"))])
              (js "Invalid API key") _ _ _ _).
    + vm_compute. reflexivity.
    + vm_compute. reflexivity.
    + vm_compute. reflexivity.
    + vm_compute. reflexivity.
    + vm_compute. reflexivity.
    + vm_compute. discriminate.
  - refine (proj2 (proj2 (proj2 (proj2 (proj2
              (stream_api_error JSON.parse ToString_reference config_with_key
                 None 404 (js "Not Found") (jsq error_body_object) (js "404")
                 _ _)))))
              (JObj [(js "error", JObj [(js "message", error_message_object)])])
              (JObj [(js "message", error_message_object)])
              error_message_object NOT_PRIMITIVE _ _ _ _ _).
    + vm_compute. reflexivity.
    + vm_compute. reflexivity.
    + vm_compute. reflexivity.
    + vm_compute. reflexivity.
    + vm_compute. reflexivity.
    + vm_compute. reflexivity.
    + vm_compute. reflexivity.
Defined.

Lemma summarizeText_result_witness :
  truthy (min1 summary_result) = true
  /\ truthy (fullBreakdown summary_result) = true
  /\ exists (status : N) (statusText : jsstring) (data content parsed : json),
      summary_response = Response true status statusText (Some data)
      /\ choices0_message_content data = Some (Some content)
      /\ truthy content = true
      /\ (exists text : jsstring,
             template ToString_reference content = Converts text
             /\ JSON.parse text = Some parsed)
      /\ actionPoints summary_result
         = match get_property parsed (js "actionPoints") with
           | Some (JArr items) => items
           | _ => []
           end.
Proof.
  refine (proj2 (proj2
            (summarizeText_result JSON.parse ToString_reference config_with_key
               None summary_response true summary_result _))).
  vm_compute. reflexivity.
Defined.


Lemma key_check_witness :
  snd (summarizeText JSON.parse ToString_reference config_without_key (Some [])
         summary_response)
  = Throws API_KEY_REQUIRED
  /\ snd (generateReply ToString_reference config_without_key (Some [])
            summary_response)
     = Throws API_KEY_REQUIRED
  /\ snd (askQuestion ToString_reference config_without_key (Some [])
            summary_response)
     = Throws API_KEY_REQUIRED
  /\ result (streamChat JSON.parse ToString_reference config_without_key
               (Some []) (Body [stream_whole] Done))
     = Rejected API_KEY_REQUIRED.
Proof.
  refine (proj2 (proj2 (proj2 (proj2 (proj2 (proj2
            (key_check JSON.parse ToString_reference config_without_key
               (Some []) summary_response
               (Body [stream_whole] Done)))))))
            _).
  vm_compute. reflexivity.
Defined.

Lemma file_select_all_or_nothing_witness :
  handleFileSelect uuid_sample [file_png; file_pdf_broken; file_txt] [notes]
  = [notes].
Proof.
  refine (proj1 (file_select_all_or_nothing uuid_sample
                   [file_png; file_pdf_broken; file_txt] [notes])
            (ex_intro _ file_pdf_broken (conj _ _))).
  - simpl. right. now left.
  - vm_compute. reflexivity.
Defined.

Lemma remove_after_select_witness :
  removeAttachment (uuid_sample 1)
    (handleFileSelect uuid_sample [file_png; file_txt] [notes])
  = [notes] ++ firstn 1 picked ++ skipn 2 picked.
Proof.
  refine (remove_after_select uuid_sample [file_png; file_txt] [notes] picked 1
            _ _ _ _).
  - vm_compute. reflexivity.
  - cbn. lia.
  - intros a [<-|[]]. vm_compute. discriminate.
  - intros j Hj Hne. destruct j as [|[|j]].
    + vm_compute. discriminate.
    + congruence.
    + cbn in Hj. lia.
Defined.

Lemma create_then_delete_project_witness :
  handleDeleteProject (js "p2") [session_in_work; session_with_attachments]
    (handleCreateProject (js "Home") (js "p2") 7%Z [work])
  = ([session_in_work; session_with_attachments], [work]).
Proof.
  refine (proj1 (create_then_delete_project (js "Home") (js "p2") 7%Z
                   [session_in_work; session_with_attachments] [work] _ _)).
  - intros p [<-|[]]. vm_compute. discriminate.
  - intros s [<-|[<-|[]]]; vm_compute; discriminate.
Defined.

Lemma new_chat_then_delete_witness :
  handleDeleteSession (js "n1")
    (snd (handleNewChat (js "n1") 5%Z one_empty_session)) (js "n2") 6%Z
    (fst (handleNewChat (js "n1") 5%Z one_empty_session))
  = (one_empty_session, Some (js "s1")).
Proof.
  refine (new_chat_then_delete (js "n1") 5%Z (js "n2") 6%Z one_empty_session _).
  intros s [<-|[]]. vm_compute. discriminate.
Defined.
